(** * Verification of the Yale Smart Alarm client (yalesmartalarmclient)

    A shallow embedding of [lock.py], [auth.py] and [client.py]:
    the lock-state decoder, the fixed-width lock configuration string,
    the token handling of [YaleAuth] as a state and error monad over a
    scripted network, and the command operations built on it. *)

From Stdlib Require Import String Ascii List ZArith Bool Lia.
Import ListNotations.
Open Scope string_scope.
Open Scope Z_scope.

(* ------------------------------------------------------------------ *)
(** ** Python string primitives *)

Module Py.

(** [needle in hay] for Python strings. *)
Fixpoint contains (needle hay : string) : bool :=
  if String.prefix needle hay then true
  else match hay with
       | EmptyString => false
       | String _ rest => contains needle rest
       end.

(** [s[a:b]] for [0 <= a <= b]. *)
Definition slice (s : string) (a b : nat) : string :=
  String.substring a (b - a) s.

(** [s[:k]] for [k >= 0]. *)
Definition take (s : string) (k : nat) : string := String.substring 0 k s.

(** [s[k:]] for [k >= 0]. *)
Definition drop (s : string) (k : nat) : string :=
  String.substring k (String.length s - k) s.

(** [s[:-k]] for [k > 0]: everything but the last [k] characters. *)
Definition take_neg (s : string) (k : nat) : string :=
  String.substring 0 (String.length s - k) s.

(** ["0" * n] *)
Fixpoint zeros (n : nat) : string :=
  match n with
  | O => EmptyString
  | S m => String "0" (zeros m)
  end.

(** Characters are read as code points below 256. The characters that
    [int()] strips around its argument: 0x09-0x0D, the space, 0x85 and
    0xA0 (0x1C-0x1F, though [str.isspace], are refused). *)
Definition is_space (c : ascii) : bool :=
  let n := nat_of_ascii c in
  ((9 <=? n) && (n <=? 13))%nat || (n =? 32)%nat
  || (n =? 133)%nat || (n =? 160)%nat.

Fixpoint lstrip (l : list ascii) : list ascii :=
  match l with
  | c :: r => if is_space c then lstrip r else l
  | [] => []
  end.

Definition strip (l : list ascii) : list ascii := rev (lstrip (rev (lstrip l))).

(** Value of a hexadecimal digit. *)
Definition hex_val (c : ascii) : option Z :=
  let n := Z.of_nat (nat_of_ascii c) in
  if (48 <=? n) && (n <=? 57) then Some (n - 48)
  else if (97 <=? n) && (n <=? 102) then Some (n - 87)
  else if (65 <=? n) && (n <=? 70) then Some (n - 55)
  else None.

(** Digits after the first: each digit may be preceded by one underscore. *)
Fixpoint hex_rest (acc : Z) (l : list ascii) : option Z :=
  match l with
  | [] => Some acc
  | c :: r =>
      if Ascii.eqb c "_" then
        match r with
        | d :: r' =>
            match hex_val d with
            | Some v => hex_rest (acc * 16 + v) r'
            | None => None
            end
        | [] => None
        end
      else
        match hex_val c with
        | Some v => hex_rest (acc * 16 + v) r
        | None => None
        end
  end.

(** A digit run that starts with a digit. *)
Definition hex_digits (l : list ascii) : option Z :=
  match l with
  | c :: r => match hex_val c with
              | Some v => hex_rest v r
              | None => None
              end
  | [] => None
  end.

(** After the [0x] prefix an underscore may precede the first digit. *)
Definition hex_after_prefix (l : list ascii) : option Z :=
  match l with
  | c :: r => if Ascii.eqb c "_" then hex_digits r else hex_digits l
  | [] => None
  end.

Definition unsigned_hex (l : list ascii) : option Z :=
  match l with
  | z :: x :: r =>
      if Ascii.eqb z "0" && (Ascii.eqb x "x" || Ascii.eqb x "X")
      then hex_after_prefix r
      else hex_digits l
  | _ => hex_digits l
  end.

(** [int(s, 16)]: [None] stands for the [ValueError] it raises. *)
Definition int16 (s : string) : option Z :=
  match strip (list_ascii_of_string s) with
  | c :: r =>
      if Ascii.eqb c "-" then option_map Z.opp (unsigned_hex r)
      else if Ascii.eqb c "+" then unsigned_hex r
      else unsigned_hex (c :: r)
  | [] => None
  end.

(** Strings made of hexadecimal digits only, and their value. *)
Definition is_hex_digit (c : ascii) : bool :=
  match hex_val c with Some _ => true | None => false end.

Definition is_hex_string (s : string) : bool :=
  forallb is_hex_digit (list_ascii_of_string s).

Fixpoint hex_fold (acc : Z) (l : list ascii) : Z :=
  match l with
  | [] => acc
  | c :: r => hex_fold (acc * 16 + match hex_val c with Some v => v | None => 0 end) r
  end.

Definition hex_value (s : string) : Z := hex_fold 0 (list_ascii_of_string s).

End Py.

(* ------------------------------------------------------------------ *)
(** ** Exceptions and results *)

(** The exceptions the modelled code raises ([ValueError] from [int()],
    [KeyError] from a dict lookup; [RecursionError] stands for Python's
    recursion limit, reached when the fuel of the model runs out). *)
Inductive Exc :=
| AuthenticationError
| ConnectionError
| TimeoutError
| UnknownError
| KeyError
| ValueError
| RecursionError.

Inductive Result (A : Type) :=
| Ok (a : A)
| Err (e : Exc).
Arguments Ok {A} a.
Arguments Err {A} e.

(** A JSON object with string values, as an association list;
    [dict.get] and [dict[...]] take the first binding. *)
Definition Body := list (string * string).

Fixpoint get (k : string) (d : Body) : option string :=
  match d with
  | [] => None
  | (k', v) :: r => if String.eqb k k' then Some v else get k r
  end.

(* ------------------------------------------------------------------ *)
(** ** lock.py *)

Module Lock.

Inductive YaleLockState := LOCKED | UNLOCKED | DOOR_OPEN | UNKNOWN.

Definition YaleLockState_eqb (a b : YaleLockState) : bool :=
  match a, b with
  | LOCKED, LOCKED | UNLOCKED, UNLOCKED | DOOR_OPEN, DOOR_OPEN
  | UNKNOWN, UNKNOWN => true
  | _, _ => false
  end.

(** The device record of the device-status endpoint. *)
Record Device := {
  type : string;
  name : string;
  area : string;
  address : string;
  no : string;
  status1 : string;
  minigw_lock_status : string;
  minigw_configuration_data : string }.

Record YaleLockConfig := {
  volume : string;
  autolock : string;
  language : string;
  arm_hold_time : string }.

(** [YaleLockConfig.__init__] *)
Definition YaleLockConfig_init (conf_data : string) : YaleLockConfig := {|
  volume := Py.slice conf_data 0 2;
  autolock := Py.slice conf_data 2 4;
  language := Py.slice conf_data 8 10;
  arm_hold_time := Py.slice conf_data 30 32 |}.

(** [YaleLockConfig.to_string] *)
Definition to_string (c : YaleLockConfig) : string :=
  let conf := Py.zeros 32 in
  let conf := Py.take conf 0 ++ volume c ++ Py.drop conf 2 in
  let conf := Py.take conf 2 ++ autolock c ++ Py.drop conf 4 in
  let conf := Py.take conf 8 ++ language c ++ Py.drop conf 10 in
  let conf := Py.take conf 30 ++ arm_hold_time c ++ Py.drop conf 32 in
  conf.

(** [YaleLock._calc_state]; [int(.., 16)] may raise [ValueError]. *)
Definition calc_state (d : Device) : Result YaleLockState :=
  let raw_state := status1 d in
  let lock_status_str := minigw_lock_status d in
  if negb (String.eqb lock_status_str "") then
    match Py.int16 lock_status_str with
    | None => Err ValueError
    | Some lock_status =>
        let closed := Z.eqb (Z.land lock_status 16) 16 in
        let locked := Z.eqb (Z.land lock_status 1) 1 in
        if closed && locked then Ok LOCKED
        else if closed && negb locked then Ok UNLOCKED
        else if negb closed then Ok DOOR_OPEN
        else Ok UNKNOWN
    end
  else if Py.contains "device_status.lock" raw_state then Ok LOCKED
  else if Py.contains "device_status.unlock" raw_state then Ok UNLOCKED
  else Ok UNKNOWN.

End Lock.

(* ------------------------------------------------------------------ *)
(** ** auth.py *)

Module Auth.

(** Constants of [const.py]. That file is not among the sources: its
    values here are placeholders, and no property below depends on them
    except the two token keys. *)
Definition HOST := "https://host.invalid/yapi".
Definition ENDPOINT_TOKEN := "/o/token/".
Definition ENDPOINT_SERVICES := "/services/".
Definition YALE_AUTH_TOKEN := "client-basic-token".

(** Modelled from the spec: the values of the token keys of [const.py]
    (YALE_AUTHENTICATION_REFRESH_TOKEN, YALE_AUTHENTICATION_ACCESS_TOKEN);
    the spec names the token response fields [access_token] and
    [refresh_token]. *)
Definition YALE_AUTHENTICATION_REFRESH_TOKEN := "refresh_token".
Definition YALE_AUTHENTICATION_ACCESS_TOKEN := "access_token".

(** The attributes of a [YaleAuth] object. *)
Record YaleAuth := {
  host : string;
  username : string;
  password : string;
  refresh_token : option string;
  access_token : option string }.

Definition set_host (a : YaleAuth) (h : string) : YaleAuth :=
  {| host := h; username := username a; password := password a;
     refresh_token := refresh_token a; access_token := access_token a |}.

Definition set_tokens (a : YaleAuth) (r t : option string) : YaleAuth :=
  {| host := host a; username := username a; password := password a;
     refresh_token := r; access_token := t |}.

(** Form values sent by [requests] ([area_id] is an int). *)
Inductive PVal := PStr (s : string) | PInt (z : Z).
Definition Params := list (string * PVal).

(** An HTTP request as it leaves the client: URL, the [Authorization]
    header, and the form data ([None] when [data=None]). *)
Inductive Request :=
| GET (url : string) (authorization : string)
| POST (url : string) (authorization : string) (data : option Params).

(** What [requests.get]/[requests.post] produce: a response, or one of the
    transport exceptions ([ConnectionError], [Timeout], another
    [RequestException]). *)
Inductive Outcome :=
| Resp (status_code : Z) (body : Body)
| TConnection
| TTimeout
| TOther.

(** The client object together with the network: the answers still to be
    delivered, in order, and the requests sent so far. *)
Record World := {
  auth : YaleAuth;
  net : list Outcome;
  sent : list Request }.

(** State and error monad over [World]. *)
Definition M (A : Type) := World -> Result A * World.

Definition ret {A} (x : A) : M A := fun w => (Ok x, w).
Definition raise {A} (e : Exc) : M A := fun w => (Err e, w).
Definition bind {A B} (m : M A) (k : A -> M B) : M B :=
  fun w => match m w with
           | (Ok x, w') => k x w'
           | (Err e, w') => (Err e, w')
           end.

Notation "x <- m ;; k" := (bind m (fun x => k))
  (at level 61, m at next level, right associativity).
Notation "m ;; k" := (bind m (fun _ => k))
  (at level 61, right associativity).

Definition get_auth : M YaleAuth := fun w => (Ok (auth w), w).
Definition modify_auth (f : YaleAuth -> YaleAuth) : M unit :=
  fun w => (Ok tt, {| auth := f (auth w); net := net w; sent := sent w |}).

(** Sending a request consumes the next scripted answer; once the script
    is exhausted the network is down. *)
Definition request (r : Request) : M Outcome :=
  fun w =>
    let w' o rest := {| auth := auth w; net := rest; sent := sent w ++ [r] |} in
    match net w with
    | o :: rest => (Ok o, w' o rest)
    | [] => (Ok TConnection, w' TConnection [])
    end.

(** [response.raise_for_status()] raises for 4xx and 5xx codes. *)
Definition is_http_error (code : Z) : bool := (400 <=? code) && (code <? 600).

Definition is_auth_failure (code : Z) : bool := (code =? 401) || (code =? 403).

(** The [except ConnectionError / Timeout / RequestException] arms. *)
Definition raise_transport {A} (o : Outcome) : M A :=
  match o with
  | TConnection => raise ConnectionError
  | TTimeout => raise TimeoutError
  | _ => raise UnknownError
  end.

(** Python truthiness of an optional string. *)
Definition truthy (o : option string) : bool :=
  match o with
  | Some s => negb (String.eqb s "")
  | None => false
  end.

(** [YaleAuth.auth_headers] (the [Authorization] value). *)
Definition auth_headers (a : YaleAuth) : string :=
  if truthy (access_token a) then
    match access_token a with
    | Some t => "Bearer " ++ t
    | None => "Bearer "
    end
  else "Bearer ".

Definition basic_header := "Basic " ++ YALE_AUTH_TOKEN.

(** [url.endswith("/")] *)
Definition ends_with_slash (s : string) : bool :=
  match String.length s with
  | O => false
  | S k => String.eqb (String.substring k 1 s) "/"
  end.

(** [YaleAuth._update_services], over the GET it performs. *)
Definition update_services (get_authenticated : string -> M Body) : M unit :=
  data <- get_authenticated ENDPOINT_SERVICES;;
  match get "yapi" data with
  | Some url =>
      if (0 <? String.length url)%nat then
        let url := if ends_with_slash url then Py.take_neg url 1 else url in
        modify_auth (fun a => set_host a url)
      else ret tt
  | None => ret tt
  end.

(** [YaleAuth.get_authenticated] and [YaleAuth._authorize]; [fuel] bounds
    the recursion depth. *)
Fixpoint get_authenticated (fuel : nat) (endpoint : string) : M Body :=
  match fuel with
  | O => raise RecursionError
  | S f =>
      a <- get_auth;;
      let url := host a ++ endpoint in
      o <- request (GET url (auth_headers a));;
      match o with
      | Resp code body =>
          if is_http_error code then
            if is_auth_failure code then
              modify_auth (fun a => set_tokens a None None);;
              authorize f;;
              get_authenticated f endpoint;;
              raise ConnectionError
            else raise ConnectionError
          else ret body
      | t => raise_transport t
      end
  end
with authorize (fuel : nat) : M (option string * option string) :=
  match fuel with
  | O => raise RecursionError
  | S f =>
      a <- get_auth;;
      let payload :=
        if truthy (refresh_token a) then
          match refresh_token a with
          | Some r => [("grant_type", PStr "refresh_token"); ("refresh_token", PStr r)]
          | None => []
          end
        else [("grant_type", PStr "password"); ("username", PStr (username a));
              ("password", PStr (password a))] in
      let url := host a ++ ENDPOINT_TOKEN in
      o <- request (POST url basic_header (Some payload));;
      match o with
      | Resp code data =>
          if is_http_error code then
            if is_auth_failure code then raise AuthenticationError
            else raise ConnectionError
          else
            modify_auth (fun a => set_tokens a
                           (get YALE_AUTHENTICATION_REFRESH_TOKEN data)
                           (get YALE_AUTHENTICATION_ACCESS_TOKEN data));;
            a1 <- get_auth;;
            match refresh_token a1, access_token a1 with
            | Some _, Some _ =>
                update_services (get_authenticated f);;
                a2 <- get_auth;;
                ret (access_token a2, refresh_token a2)
            | _, _ => raise AuthenticationError
            end
      | t => raise_transport t
      end
  end.

(** [YaleAuth.post_authenticated] *)
Fixpoint post_authenticated (fuel : nat) (endpoint : string)
    (params : option Params) : M Body :=
  match fuel with
  | O => raise RecursionError
  | S f =>
      a <- get_auth;;
      let url := if Py.contains "panic" endpoint
                 then Py.take_neg (host a) 5 ++ endpoint
                 else host a ++ endpoint in
      o <- request (POST url (auth_headers a) params);;
      match o with
      | Resp code body =>
          if is_http_error code then
            if is_auth_failure code then
              modify_auth (fun a => set_tokens a None None);;
              authorize f;;
              post_authenticated f endpoint params;;
              raise ConnectionError
            else raise ConnectionError
          else if Py.contains "panic" endpoint then ret [("panic", "triggered")]
          else ret body
      | t => raise_transport t
      end
  end.

(** [YaleAuth.__init__]: the object exists once [_authorize] returns. *)
Definition init (fuel : nat) (username password : string) : M unit :=
  modify_auth (fun _ => {| host := HOST; username := username;
                           password := password; refresh_token := None;
                           access_token := None |});;
  authorize fuel;;
  ret tt.

(** A failed request that is neither a 401 nor a 403: a transport
    exception or another 4xx/5xx code. *)
Definition failed_otherwise (o : Outcome) : bool :=
  match o with
  | Resp code _ => is_http_error code && negb (is_auth_failure code)
  | _ => true
  end.

(** Number of requests sent to the token endpoint (re-authentications). *)
Definition is_token_request (r : Request) : bool :=
  match r with
  | POST _ h _ => String.eqb h basic_header
  | GET _ _ => false
  end.

Definition token_requests (w : World) : nat :=
  List.length (List.filter is_token_request (sent w)).

End Auth.

(* ------------------------------------------------------------------ *)
(** ** The lock object and the doorman API (lock.py) *)

Module LockApi.
Import Lock Auth.

(** The attributes of a [YaleLock] object. *)
Record YaleLock := {
  _device : Device;
  lock_name : string;
  _config : YaleLockConfig;
  _state : YaleLockState }.

(** [YaleLock.set_state] *)
Definition set_state (lock : YaleLock) (new_state : YaleLockState) : YaleLock :=
  {| _device := _device lock; lock_name := lock_name lock;
     _config := _config lock; _state := new_state |}.

Definition lock_area (l : YaleLock) := area (_device l).
Definition lock_zone (l : YaleLock) := no (_device l).
Definition lock_sid (l : YaleLock) := address (_device l).
Definition lock_device_type (l : YaleLock) := type (_device l).

Definition CODE_SUCCESS := "000".
Definition _ENDPOINT_DEVICES_CONTROL := "/api/panel/device_control/".
Definition _ENDPOINT_DEVICES_UNLOCK := "/api/minigw/unlock/".

(** [operation_status["code"] == self.CODE_SUCCESS] *)
Definition code_success (operation_status : Body) : M bool :=
  match get "code" operation_status with
  | Some c => ret (String.eqb c CODE_SUCCESS)
  | None => raise KeyError
  end.

(** [YaleDoorManAPI.close_lock]; the lock object is returned updated. *)
Definition close_lock_params (lock : YaleLock) : Params :=
  [("area", PStr (lock_area lock)); ("zone", PStr (lock_zone lock));
   ("device_sid", PStr (lock_sid lock));
   ("device_type", PStr (lock_device_type lock));
   ("request_value", PStr "1")].

Definition close_lock (fuel : nat) (lock : YaleLock) : M (bool * YaleLock) :=
  let params := close_lock_params lock in
  operation_status <- post_authenticated fuel _ENDPOINT_DEVICES_CONTROL (Some params);;
  success <- code_success operation_status;;
  if success then ret (success, set_state lock LOCKED)
  else ret (success, lock).

(** [YaleDoorManAPI.open_lock] *)
Definition open_lock_params (lock : YaleLock) (pin_code : string) : Params :=
  [("area", PStr (lock_area lock)); ("zone", PStr (lock_zone lock));
   ("pincode", PStr pin_code)].

Definition open_lock (fuel : nat) (lock : YaleLock) (pin_code : string)
    : M (bool * YaleLock) :=
  let params := open_lock_params lock pin_code in
  operation_status <- post_authenticated fuel _ENDPOINT_DEVICES_UNLOCK (Some params);;
  success <- code_success operation_status;;
  if success then ret (success, set_state lock UNLOCKED)
  else ret (success, lock).

End LockApi.

(* ------------------------------------------------------------------ *)
(** ** client.py *)

Module Client.
Import Lock Auth.

(** Modelled from the spec: [YALE_CODE_RESULT_SUCCESS] of [const.py],
    the success sentinel ["000"] of the command endpoints. *)
Definition YALE_CODE_RESULT_SUCCESS := "000".

(** Mode values of [const.py] (placeholders). *)
Definition YALE_STATE_ARM_FULL := "arm".
Definition YALE_STATE_ARM_PARTIAL := "home".
Definition YALE_STATE_DISARM := "disarm".

Definition _ENDPOINT_SET_MODE := "/api/panel/mode/".
Definition _ENDPOINT_PANIC_BUTTON := "/api/panel/panic".

Record YaleSmartAlarmClient := { area_id : Z }.

(** [YaleSmartAlarmClient.set_armed_status] *)
Definition set_mode_params (c : YaleSmartAlarmClient) (mode : string) : Params :=
  [("area", PInt (area_id c)); ("mode", PStr mode)].

Definition set_armed_status (fuel : nat) (c : YaleSmartAlarmClient) (mode : string)
    : M bool :=
  let params := set_mode_params c mode in
  response <- post_authenticated fuel _ENDPOINT_SET_MODE (Some params);;
  match get "code" response with
  | Some code => ret (String.eqb code YALE_CODE_RESULT_SUCCESS)
  | None => raise KeyError
  end.

(** [YaleSmartAlarmClient.trigger_panic_button] *)
Definition trigger_panic_button (fuel : nat) : M bool :=
  response <- post_authenticated fuel _ENDPOINT_PANIC_BUTTON None;;
  match get "code" response with
  | Some code => ret (String.eqb code YALE_CODE_RESULT_SUCCESS)
  | None => raise KeyError
  end.

Definition arm_full fuel c := set_armed_status fuel c YALE_STATE_ARM_FULL.
Definition arm_partial fuel c := set_armed_status fuel c YALE_STATE_ARM_PARTIAL.
Definition disarm fuel c := set_armed_status fuel c YALE_STATE_DISARM.

(** The state a lock gets in [get_locks_status]: [status1] unless one of
    the branches assigns a state constant. *)
Inductive LockStatus :=
| YALE_LOCK_STATE_LOCKED
| YALE_LOCK_STATE_UNLOCKED
| YALE_LOCK_STATE_DOOR_OPEN
| YALE_LOCK_STATE_UNKNOWN
| Raw (status1 : string).

(** The body of the loop of [get_locks_status] for a door-lock device. *)
Definition lock_status_of (device : Device) : Result LockStatus :=
  let state := Raw (status1 device) in
  let lock_status_str := minigw_lock_status device in
  if negb (String.eqb lock_status_str "") then
    match Py.int16 lock_status_str with
    | None => Err ValueError
    | Some lock_status =>
        let closed := Z.eqb (Z.land lock_status 16) 16 in
        let locked := Z.eqb (Z.land lock_status 1) 1 in
        if closed && locked then Ok YALE_LOCK_STATE_LOCKED
        else if closed && negb locked then Ok YALE_LOCK_STATE_UNLOCKED
        else if negb closed then Ok YALE_LOCK_STATE_DOOR_OPEN
        else Ok state
    end
  else if Py.contains "device_status.lock" (status1 device) then Ok YALE_LOCK_STATE_LOCKED
  else if Py.contains "device_status.unlock" (status1 device) then Ok YALE_LOCK_STATE_UNLOCKED
  else Ok YALE_LOCK_STATE_UNKNOWN.

End Client.

(* ------------------------------------------------------------------ *)
(** ** Lock objects and lock settings (lock.py) *)

Module LockOps.
Import Lock Auth LockApi.

Definition DEVICE_TYPE := "device_type.door_lock".

(** [YaleLock.update]: [_device] and [name] are assigned before
    [_calc_state] runs, so a [ValueError] leaves them replaced. *)
Definition update (lock : YaleLock) (device : Device) : Result unit * YaleLock :=
  let lock1 := {| _device := device; lock_name := name device;
                  _config := _config lock; _state := _state lock |} in
  match calc_state device with
  | Err e => (Err e, lock1)
  | Ok s =>
      (Ok tt, {| _device := device; lock_name := name device;
                 _config := YaleLockConfig_init (minigw_configuration_data device);
                 _state := s |})
  end.

(** [YaleLock.__init__]; the object exists only if [update] returns. *)
Definition YaleLock_init (device : Device) : Result YaleLock :=
  let lock0 := {| _device := device; lock_name := name device;
                  _config := YaleLockConfig_init (minigw_configuration_data device);
                  _state := UNKNOWN |} in
  match update lock0 device with
  | (Ok _, lock) => Ok lock
  | (Err e, _) => Err e
  end.

(** [YaleDoorManAPI.get] over the device list of the status response: the
    generator [locks()] builds a [YaleLock] for each door-lock device, and
    [get] stops at the first one whose name equals [name]
    ([YaleLock.__eq__] with a string). *)
Fixpoint get_lock (devices : list Device) (n : string) : Result (option YaleLock) :=
  match devices with
  | [] => Ok None
  | device :: rest =>
      if String.eqb (type device) DEVICE_TYPE then
        match YaleLock_init device with
        | Err e => Err e
        | Ok lock => if String.eqb (lock_name lock) n then Ok (Some lock)
                     else get_lock rest n
        end
      else get_lock rest n
  end.

Inductive YaleLockVolume := HIGH | LOW | OFF.

Definition volume_value (v : YaleLockVolume) : string :=
  match v with HIGH => "03" | LOW => "02" | OFF => "01" end.

(** Outcome of a Python call that can also fail with [AttributeError]. *)
Inductive PyOutcome (A : Type) :=
| PReturn (a : A)
| PRaise (e : Exc)
| PAttributeError (attribute : string).
Arguments PReturn {A} a.
Arguments PRaise {A} e.
Arguments PAttributeError {A} attribute.

(** [YaleDoorManAPI._put_lock_request]: it calls
    [self.auth.put_authenticated], which [YaleAuth] (auth.py) does not
    define; the [AttributeError] is not caught by its [except] arms. *)
Definition _put_lock_request (lock : YaleLock) : PyOutcome bool :=
  PAttributeError "put_authenticated".

Definition _ENDPOINT_DEVICES_CONFIG := "/api/minigw/lock/config/".

Definition with_config (lock : YaleLock) (c : YaleLockConfig) : YaleLock :=
  {| _device := _device lock; lock_name := lock_name lock;
     _config := c; _state := _state lock |}.

(** [YaleDoorManAPI.set_volume]; the lock object is returned updated. *)
Definition set_volume (fuel : nat) (lock : YaleLock) (volume : YaleLockVolume)
    (w : World) : PyOutcome bool * YaleLock * World :=
  let params := [("area", PStr (lock_area lock)); ("zone", PStr (lock_zone lock));
                 ("val", PStr (volume_value volume)); ("idx", PStr "01")] in
  match post_authenticated fuel _ENDPOINT_DEVICES_CONFIG (Some params) w with
  | (Err e, w') => (PRaise e, lock, w')
  | (Ok operation_status, w') =>
      match get "code" operation_status with
      | None => (PRaise KeyError, lock, w')
      | Some code =>
          if String.eqb code CODE_SUCCESS then
            let c := _config lock in
            let lock' := with_config lock
                {| Lock.volume := volume_value volume; autolock := autolock c;
                   language := language c; arm_hold_time := arm_hold_time c |} in
            (_put_lock_request lock', lock', w')
          else (PReturn false, lock, w')
      end
  end.

(** [YaleDoorManAPI.set_autolock] *)
Definition set_autolock (fuel : nat) (lock : YaleLock) (autolock : bool)
    (w : World) : PyOutcome bool * YaleLock * World :=
  let val := if autolock then "FF" else "00" in
  let params := [("area", PStr (lock_area lock)); ("zone", PStr (lock_zone lock));
                 ("val", PStr val); ("idx", PStr "02")] in
  match post_authenticated fuel _ENDPOINT_DEVICES_CONFIG (Some params) w with
  | (Err e, w') => (PRaise e, lock, w')
  | (Ok operation_status, w') =>
      match get "code" operation_status with
      | None => (PRaise KeyError, lock, w')
      | Some code =>
          if String.eqb code CODE_SUCCESS then
            let c := _config lock in
            let lock' := with_config lock
                {| Lock.volume := Lock.volume c; Lock.autolock := val;
                   language := language c; arm_hold_time := arm_hold_time c |} in
            (_put_lock_request lock', lock', w')
          else (PReturn false, lock, w')
      end
  end.

End LockOps.

(* ------------------------------------------------------------------ *)
(** ** Status reading in client.py *)

Module ClientData.
Import Lock Auth Client.

(** The [try]/[except Exception] retry loop of the [get_*] methods:
    on an exception, if [retry > 0] call again with [retry - 1]
    (after [time.sleep(5)]), otherwise re-raise. *)
Fixpoint retrying {A} (n : nat) (op : M A) : M A :=
  fun w =>
    match op w with
    | (Ok x, w') => (Ok x, w')
    | (Err e, w') =>
        match n with
        | O => (Err e, w')
        | S k => retrying k op w'
        end
    end.

Definition with_retry {A} (retry : Z) (op : M A) : M A :=
  retrying (Z.to_nat retry) op.

(** The request part of [get_cycle], [get_status], [get_online],
    [get_panel_info], [get_history], [get_auth_check], [get_all_devices]. *)
Definition fetch_with_retry (fuel : nat) (retry : Z) (endpoint : string) : M Body :=
  with_retry retry (get_authenticated fuel endpoint).

(** [get_status] after the request, over [status["data"]]:
    [acfail == battery == tamper == jam == "main.normal"]. *)
Definition status_summary (data : Body) : Result string :=
  match get "acfail" data with
  | None => Err KeyError
  | Some acfail =>
  match get "battery" data with
  | None => Err KeyError
  | Some battery =>
  match get "tamper" data with
  | None => Err KeyError
  | Some tamper =>
  match get "jam" data with
  | None => Err KeyError
  | Some jam =>
      if String.eqb acfail battery && String.eqb battery tamper &&
         String.eqb tamper jam && String.eqb jam "main.normal"
      then Ok "ok" else Ok "error"
  end end end end.

(** [d[k] = v] on a Python dict: replaces the value in place when [k] is
    present, otherwise appends. *)
Fixpoint setitem {A} (k : string) (v : A) (d : list (string * A)) : list (string * A) :=
  match d with
  | [] => [(k, v)]
  | (k', v') :: r => if String.eqb k k' then (k', v) :: r else (k', v') :: setitem k v r
  end.

Fixpoint lookup {A} (k : string) (d : list (string * A)) : option A :=
  match d with
  | [] => None
  | (k', v) :: r => if String.eqb k k' then Some v else lookup k r
  end.

(** The loop of [get_locks_status] over [devices["data"]]. *)
Fixpoint locks_status_loop (locks : list (string * LockStatus)) (devices : list Device)
    : Result (list (string * LockStatus)) :=
  match devices with
  | [] => Ok locks
  | device :: rest =>
      if String.eqb (type device) "device_type.door_lock" then
        match lock_status_of device with
        | Err e => Err e
        | Ok state => locks_status_loop (setitem (name device) state locks) rest
        end
      else locks_status_loop locks rest
  end.

Definition locks_status (devices : list Device) := locks_status_loop [] devices.

(** The loop of [get_doors_status] over [devices["data"]]; the three
    door-contact constants of [const.py] are kept abstract. *)
Inductive DoorStatus :=
| YALE_DOOR_CONTACT_STATE_CLOSED
| YALE_DOOR_CONTACT_STATE_OPEN
| YALE_DOOR_CONTACT_STATE_UNKNOWN.

Definition door_status_of (device : Device) : DoorStatus :=
  if Py.contains "device_status.dc_close" (status1 device) then YALE_DOOR_CONTACT_STATE_CLOSED
  else if Py.contains "device_status.dc_open" (status1 device) then YALE_DOOR_CONTACT_STATE_OPEN
  else YALE_DOOR_CONTACT_STATE_UNKNOWN.

Fixpoint doors_status_loop (doors : list (string * DoorStatus)) (devices : list Device)
    : list (string * DoorStatus) :=
  match devices with
  | [] => doors
  | device :: rest =>
      if String.eqb (type device) "device_type.door_contact" then
        doors_status_loop (setitem (name device) (door_status_of device) doors) rest
      else doors_status_loop doors rest
  end.

Definition doors_status (devices : list Device) := doors_status_loop [] devices.

End ClientData.

(* ------------------------------------------------------------------ *)
(** ** The request log *)

Module AuthLog.
Import Auth.

(** A computation only appends to the log of sent requests. *)
Definition grows {A} (m : M A) : Prop :=
  forall w, exists t, sent (snd (m w)) = (sent w ++ t)%list.

End AuthLog.

(* ================================================================== *)
(** * Properties *)

(* ------------------------------------------------------------------ *)
(** ** int(s, 16) on digit strings *)

Module HexFacts.
Import Py.

(** A hexadecimal digit is no whitespace, sign, underscore or [x]. *)
Lemma hex_digit_plain (c : ascii) :
  is_hex_digit c = true ->
  is_space c = false /\ Ascii.eqb c "-" = false /\ Ascii.eqb c "+" = false /\
  Ascii.eqb c "_" = false /\ Ascii.eqb c "x" = false /\ Ascii.eqb c "X" = false.
Proof.
  destruct c as [b0 b1 b2 b3 b4 b5 b6 b7].
  destruct b0, b1, b2, b3, b4, b5, b6, b7; vm_compute; intuition congruence.
Qed.

Lemma lstrip_hex (l : list ascii) :
  forallb is_hex_digit l = true -> lstrip l = l.
Proof.
  destruct l as [|c r]; simpl; [reflexivity|].
  intros H; apply andb_true_iff in H as [Hc _].
  destruct (hex_digit_plain c Hc) as [-> _]; reflexivity.
Qed.

Lemma strip_hex (l : list ascii) :
  forallb is_hex_digit l = true -> strip l = l.
Proof.
  intros H; unfold strip.
  rewrite (lstrip_hex l H), lstrip_hex, rev_involutive; [reflexivity|].
  apply forallb_forall; intros c Hin.
  apply In_rev in Hin. now apply (proj1 (forallb_forall _ _) H).
Qed.

Lemma hex_rest_fold (l : list ascii) (acc : Z) :
  forallb is_hex_digit l = true -> hex_rest acc l = Some (hex_fold acc l).
Proof.
  revert acc; induction l as [|c r IH]; intros acc H; simpl; [reflexivity|].
  simpl in H; apply andb_true_iff in H as [Hc Hr].
  destruct (hex_digit_plain c Hc) as (_ & _ & _ & -> & _).
  unfold is_hex_digit in Hc; destruct (hex_val c); [|discriminate].
  now apply IH.
Qed.

Lemma hex_digits_fold (l : list ascii) :
  l <> [] -> forallb is_hex_digit l = true -> hex_digits l = Some (hex_fold 0 l).
Proof.
  destruct l as [|c r]; intros Hne H; [congruence|].
  simpl in H; apply andb_true_iff in H as [Hc Hr]; simpl.
  unfold is_hex_digit in Hc; destruct (hex_val c) as [v|]; [|discriminate].
  now apply hex_rest_fold.
Qed.

(** On a non-empty string of hexadecimal digits [int(s, 16)] is the value
    of the digits. *)
Lemma int16_hex_string (s : string) :
  s <> "" -> is_hex_string s = true -> int16 s = Some (hex_value s).
Proof.
  unfold is_hex_string, int16, hex_value; intros Hne H.
  rewrite (strip_hex _ H).
  assert (Hl : list_ascii_of_string s <> []).
  { destruct s; simpl; congruence. }
  destruct (list_ascii_of_string s) as [|c r] eqn:E; [congruence|].
  pose proof H as H'; simpl in H'; apply andb_true_iff in H' as [Hc Hr].
  destruct (hex_digit_plain c Hc) as (_ & -> & -> & _).
  unfold unsigned_hex.
  destruct r as [|x r'].
  - now apply hex_digits_fold.
  - simpl in Hr; apply andb_true_iff in Hr as [Hx _].
    destruct (hex_digit_plain x Hx) as (_ & _ & _ & _ & -> & ->).
    rewrite andb_false_r. now apply hex_digits_fold.
Qed.

(** [(n & 2^k) == 2^k] tests bit [k]. *)
Lemma land_pow2_eqb (n k : Z) :
  0 <= k -> Z.eqb (Z.land n (2 ^ k)) (2 ^ k) = Z.testbit n k.
Proof.
  intros Hk.
  assert (E : Z.land n (2 ^ k) = if Z.testbit n k then 2 ^ k else 0).
  { apply Z.bits_inj'; intros i Hi.
    rewrite Z.land_spec, Z.pow2_bits_eqb by lia.
    destruct (Z.eqb_spec k i) as [->|Hne].
    - destruct (Z.testbit n i); simpl;
        [rewrite Z.pow2_bits_eqb, Z.eqb_refl by lia | rewrite Z.bits_0]; reflexivity.
    - rewrite andb_false_r.
      destruct (Z.testbit n k); [|now rewrite Z.bits_0].
      rewrite Z.pow2_bits_eqb by lia. symmetry; now apply Z.eqb_neq. }
  rewrite E. destruct (Z.testbit n k); [apply Z.eqb_refl|].
  apply Z.eqb_neq. pose proof (Z.pow_pos_nonneg 2 k ltac:(lia) Hk). lia.
Qed.

End HexFacts.

(* ------------------------------------------------------------------ *)
(** ** The lock-state decoder and the configuration string *)

Module LockProofs.
Import Lock HexFacts.

Lemma land16 (n : Z) : Z.eqb (Z.land n 16) 16 = Z.testbit n 4.
Proof. exact (land_pow2_eqb n 4 ltac:(lia)). Qed.

Lemma land1 (n : Z) : Z.eqb (Z.land n 1) 1 = Z.testbit n 0.
Proof. exact (land_pow2_eqb n 0 ltac:(lia)). Qed.

Lemma string_length_2 (s : string) :
  String.length s = 2%nat -> exists a b, s = String a (String b EmptyString).
Proof.
  destruct s as [|a [|b [|c s]]]; simpl; intros H; try discriminate.
  now exists a, b.
Qed.

(** C3: for a non-empty string of hexadecimal digits in
    [minigw_lock_status], [_calc_state] (and the same decoding in
    [get_locks_status]) parses it base 16 and maps bit 4 and bit 0 of the
    value: both set gives LOCKED, bit 4 alone gives UNLOCKED, bit 4 clear
    gives DOOR_OPEN whatever bit 0 is. *)
Theorem calc_state_bitmask (d : Device) :
  minigw_lock_status d <> "" ->
  Py.is_hex_string (minigw_lock_status d) = true ->
  let n := Py.hex_value (minigw_lock_status d) in
  Py.int16 (minigw_lock_status d) = Some n /\
  calc_state d = Ok (if Z.testbit n 4 then
                       if Z.testbit n 0 then LOCKED else UNLOCKED
                     else DOOR_OPEN) /\
  Client.lock_status_of d =
    Ok (if Z.testbit n 4 then
          if Z.testbit n 0 then Client.YALE_LOCK_STATE_LOCKED
          else Client.YALE_LOCK_STATE_UNLOCKED
        else Client.YALE_LOCK_STATE_DOOR_OPEN).
Proof.
  intros Hne Hhex n.
  assert (Hp : Py.int16 (minigw_lock_status d) = Some n)
    by now apply int16_hex_string.
  assert (He : String.eqb (minigw_lock_status d) "" = false)
    by now apply String.eqb_neq.
  split; [exact Hp|].
  unfold calc_state, Client.lock_status_of.
  rewrite He, Hp; cbn [negb].
  rewrite land16, land1.
  destruct (Z.testbit n 4), (Z.testbit n 0); split; reflexivity.
Qed.

(** C3, witness: the string ["11"] (0x11 = 17, bits 0 and 4). *)
Lemma calc_state_bitmask_witness :
  let d := {| type := "device_type.door_lock"; name := "front"; area := "1";
              address := "RF:01"; no := "1"; status1 := "";
              minigw_lock_status := "11";
              minigw_configuration_data := Py.zeros 32 |} in
  calc_state d = Ok LOCKED /\ Client.lock_status_of d = Ok Client.YALE_LOCK_STATE_LOCKED.
Proof.
  intros d.
  destruct (calc_state_bitmask d ltac:(discriminate) ltac:(reflexivity))
    as (_ & H1 & H2).
  rewrite H1, H2. split; reflexivity.
Defined.

Example calc_state_10 :
  calc_state {| type := "device_type.door_lock"; name := "front"; area := "1";
                address := "RF:01"; no := "1"; status1 := "";
                minigw_lock_status := "10"; minigw_configuration_data := "" |}
  = Ok UNLOCKED.
Proof. reflexivity. Qed.

Example calc_state_00 :
  calc_state {| type := "device_type.door_lock"; name := "front"; area := "1";
                address := "RF:01"; no := "1"; status1 := "device_status.lock";
                minigw_lock_status := "00"; minigw_configuration_data := "" |}
  = Ok DOOR_OPEN.
Proof. reflexivity. Qed.

(** C4: with an empty [minigw_lock_status] the decoder falls back to
    substring tests on [status1]: ["device_status.lock"] gives LOCKED,
    otherwise ["device_status.unlock"] gives UNLOCKED, otherwise UNKNOWN. *)
Theorem calc_state_fallback (d : Device) :
  minigw_lock_status d = "" ->
  calc_state d =
    (if Py.contains "device_status.lock" (status1 d) then Ok LOCKED
     else if Py.contains "device_status.unlock" (status1 d) then Ok UNLOCKED
     else Ok UNKNOWN) /\
  Client.lock_status_of d =
    (if Py.contains "device_status.lock" (status1 d) then Ok Client.YALE_LOCK_STATE_LOCKED
     else if Py.contains "device_status.unlock" (status1 d)
     then Ok Client.YALE_LOCK_STATE_UNLOCKED
     else Ok Client.YALE_LOCK_STATE_UNKNOWN).
Proof.
  intros He. unfold calc_state, Client.lock_status_of. rewrite He.
  split; reflexivity.
Qed.

(** C4, witness: [status1 = "device_status.lock"] with an empty bitmask. *)
Lemma calc_state_fallback_witness :
  let d := {| type := "device_type.door_lock"; name := "front"; area := "1";
              address := "RF:01"; no := "1"; status1 := "device_status.lock";
              minigw_lock_status := "";
              minigw_configuration_data := Py.zeros 32 |} in
  calc_state d = Ok LOCKED.
Proof.
  intros d. destruct (calc_state_fallback d eq_refl) as [H _].
  rewrite H. reflexivity.
Defined.

Example calc_state_unlock :
  calc_state {| type := "device_type.door_lock"; name := "front"; area := "1";
                address := "RF:01"; no := "1"; status1 := "device_status.unlock";
                minigw_lock_status := ""; minigw_configuration_data := "" |}
  = Ok UNLOCKED.
Proof. reflexivity. Qed.

(** C5: for two-character fields, [to_string] gives a 32-character string
    from which [YaleLockConfig(...)] reads back the same volume, autolock,
    language and arm_hold_time. *)
Theorem config_roundtrip (c : YaleLockConfig) :
  String.length (volume c) = 2%nat -> String.length (autolock c) = 2%nat ->
  String.length (language c) = 2%nat -> String.length (arm_hold_time c) = 2%nat ->
  String.length (to_string c) = 32%nat /\ YaleLockConfig_init (to_string c) = c.
Proof.
  destruct c as [v a l t]; simpl; intros Hv Ha Hl Ht.
  destruct (string_length_2 v Hv) as (v1 & v2 & ->).
  destruct (string_length_2 a Ha) as (a1 & a2 & ->).
  destruct (string_length_2 l Hl) as (l1 & l2 & ->).
  destruct (string_length_2 t Ht) as (t1 & t2 & ->).
  split; reflexivity.
Qed.

(** C5, witness: volume high, autolock on. *)
Lemma config_roundtrip_witness :
  let c := {| volume := "03"; autolock := "FF"; language := "01";
              arm_hold_time := "0A" |} in
  YaleLockConfig_init (to_string c) = c.
Proof.
  intros c. exact (proj2 (config_roundtrip c eq_refl eq_refl eq_refl eq_refl)).
Defined.

End LockProofs.

(* ------------------------------------------------------------------ *)
(** ** Authentication and the retry on 401/403 *)

Module AuthProofs.
Import Auth.

Ltac split_binds H :=
  repeat match type of H with
  | context [match ?m with (_, _) => _ end] =>
      let r := fresh "r" in let w := fresh "w" in
      destruct m as [r w]; destruct r; try discriminate H
  end.

(** A GET returns a body only through the plain path: the first answer is
    a response without an HTTP error, and only the network moves. *)
Lemma get_authenticated_ok fuel ep w b w' :
  get_authenticated fuel ep w = (Ok b, w') ->
  exists code rest,
    net w = Resp code b :: rest /\ is_http_error code = false /\
    w' = {| auth := auth w; net := rest;
            sent := sent w ++ [GET (host (auth w) ++ ep) (auth_headers (auth w))] |}.
Proof.
  destruct fuel as [|f]; [discriminate|].
  cbn [get_authenticated].
  unfold bind, get_auth, request, modify_auth, raise, ret, raise_transport.
  destruct (net w) as [|o rest] eqn:En; [discriminate|].
  intros H.
  destruct o as [code body| | |]; try discriminate H.
  destruct (is_http_error code) eqn:Ec.
  - destruct (is_auth_failure code); [split_binds H|discriminate H].
  - injection H as <- <-. now exists code, rest.
Qed.

(** Likewise for POST; for a panic endpoint the body is the constant
    [{"panic": "triggered"}]. *)
Lemma post_authenticated_ok fuel ep params w b w' :
  post_authenticated fuel ep params w = (Ok b, w') ->
  exists code body rest,
    net w = Resp code body :: rest /\ is_http_error code = false /\
    b = (if Py.contains "panic" ep then [("panic", "triggered")] else body) /\
    auth w' = auth w.
Proof.
  destruct fuel as [|f]; [discriminate|].
  cbn [post_authenticated].
  unfold bind, get_auth, request, modify_auth, raise, ret, raise_transport.
  destruct (net w) as [|o rest] eqn:En; [discriminate|].
  intros H.
  destruct o as [code body| | |]; try discriminate H.
  destruct (is_http_error code) eqn:Ec.
  - destruct (is_auth_failure code); [split_binds H|discriminate H].
  - exists code, body, rest. repeat split; auto.
    + destruct (Py.contains "panic" ep); now injection H as <- _.
    + destruct (Py.contains "panic" ep); now injection H as _ <-.
Qed.

(** A successful services lookup leaves both tokens as they were. *)
Lemma update_services_tokens fuel w w' :
  update_services (get_authenticated fuel) w = (Ok tt, w') ->
  refresh_token (auth w') = refresh_token (auth w) /\
  access_token (auth w') = access_token (auth w).
Proof.
  unfold update_services, bind.
  destruct (get_authenticated fuel ENDPOINT_SERVICES w) as [[b|e] w1] eqn:G;
    [|discriminate].
  apply get_authenticated_ok in G as (code & rest & _ & _ & ->).
  destruct (get "yapi" b) as [url|];
    [destruct (0 <? String.length url)%nat|];
    unfold modify_auth, ret; intros H; injection H as <-; simpl; auto.
Qed.

(** A successful [_authorize] leaves both tokens set to the pair it returns. *)
Lemma authorize_ok fuel w p w' :
  authorize fuel w = (Ok p, w') ->
  exists ac rf, access_token (auth w') = Some ac /\
                refresh_token (auth w') = Some rf /\ p = (Some ac, Some rf).
Proof.
  destruct fuel as [|f]; [discriminate|].
  cbn [authorize].
  unfold bind, get_auth, request, modify_auth, raise, ret, raise_transport.
  destruct (net w) as [|o rest] eqn:En; [discriminate|].
  intros H.
  destruct o as [code data| | |]; try discriminate H.
  destruct (is_http_error code) eqn:Ec.
  - destruct (is_auth_failure code); discriminate H.
  - cbn [auth refresh_token access_token set_tokens] in H.
    destruct (get YALE_AUTHENTICATION_REFRESH_TOKEN data) as [rf|] eqn:Er;
      [|discriminate H].
    destruct (get YALE_AUTHENTICATION_ACCESS_TOKEN data) as [ac|] eqn:Ea;
      [|discriminate H].
    destruct (update_services (get_authenticated f) _) as [[[]|e] w2] eqn:U;
      [|discriminate H].
    apply update_services_tokens in U as [U1 U2]. simpl in U1, U2.
    injection H as <- <-. exists ac, rf. rewrite U1, U2. auto.
Qed.

(** 401 and 403 are HTTP errors. *)
Lemma auth_failure_is_http_error code :
  is_auth_failure code = true -> is_http_error code = true.
Proof.
  unfold is_auth_failure; intros H.
  apply orb_true_iff in H as [H|H]; apply Z.eqb_eq in H; subst; reflexivity.
Qed.

(** C1: after a 401 or 403 answer, [get_authenticated] and
    [post_authenticated] never return a body: the result of the retried
    request is dropped and [ConnectionError] (or the retry's own error)
    is raised, even when re-authentication and the retry succeed. *)
Theorem retry_result_discarded fuel ep params w code body rest :
  net w = Resp code body :: rest -> is_auth_failure code = true ->
  (forall b, fst (get_authenticated fuel ep w) <> Ok b) /\
  (forall b, fst (post_authenticated fuel ep params w) <> Ok b).
Proof.
  intros En Ha. apply auth_failure_is_http_error in Ha.
  split; intros b Hb.
  - destruct (get_authenticated fuel ep w) as [r w'] eqn:E; simpl in Hb; subst r.
    apply get_authenticated_ok in E as (c & rest' & Hn & Hc & _).
    rewrite En in Hn. injection Hn as -> _ _. congruence.
  - destruct (post_authenticated fuel ep params w) as [r w'] eqn:E; simpl in Hb; subst r.
    apply post_authenticated_ok in E as (c & body' & rest' & Hn & Hc & _).
    rewrite En in Hn. injection Hn as -> _ _. congruence.
Qed.

(** C1, witness: 401, successful re-authentication, services lookup, and a
    200 answer to the retried GET still end in [ConnectionError]. *)
Lemma retry_result_discarded_witness :
  let w := {| auth := {| host := HOST; username := "user"; password := "secret";
                       refresh_token := Some "r0"; access_token := Some "a0" |};
              net := [Resp 401 [];
                      Resp 200 [("access_token", "a1"); ("refresh_token", "r1")];
                      Resp 200 []; Resp 200 [("mode", "disarm")]];
              sent := [] |} in
  fst (get_authenticated 10 "/api/panel/mode/" w) = Err ConnectionError /\
  (forall b, fst (get_authenticated 10 "/api/panel/mode/" w) <> Ok b).
Proof.
  intros w. split; [vm_compute; reflexivity|].
  exact (proj1 (retry_result_discarded 10 "/api/panel/mode/" None w 401 [] _ eq_refl eq_refl)).
Defined.

(** C6: a second 401 on the retried GET triggers a second
    re-authentication (two token requests) and a third GET before the
    error reaches the caller. *)
Theorem second_401_reauthenticates :
  let w := {| auth := {| host := HOST; username := "user"; password := "secret";
                       refresh_token := Some "r0"; access_token := Some "a0" |};
              net := [Resp 401 [];
                      Resp 200 [("access_token", "a1"); ("refresh_token", "r1")];
                      Resp 200 [];
                      Resp 401 [];
                      Resp 200 [("access_token", "a2"); ("refresh_token", "r2")];
                      Resp 200 [];
                      Resp 200 [("mode", "disarm")]];
              sent := [] |} in
  fst (get_authenticated 10 "/api/panel/mode/" w) = Err ConnectionError /\
  token_requests (snd (get_authenticated 10 "/api/panel/mode/" w)) = 2%nat.
Proof. vm_compute. split; reflexivity. Qed.

(** C2: [trigger_panic_button] never returns a boolean: when the POST
    succeeds, [post_authenticated] answers [{"panic": "triggered"}], which
    has no ["code"] key, so [response["code"]] raises [KeyError]. *)
Theorem trigger_panic_button_raises fuel w :
  (exists e, fst (Client.trigger_panic_button fuel w) = Err e) /\
  (forall body w', post_authenticated fuel Client._ENDPOINT_PANIC_BUTTON None w = (Ok body, w') ->
     Client.trigger_panic_button fuel w = (Err KeyError, w')).
Proof.
  assert (Hok : forall body w', post_authenticated fuel Client._ENDPOINT_PANIC_BUTTON None w = (Ok body, w') ->
     Client.trigger_panic_button fuel w = (Err KeyError, w')).
  { intros body w' E. unfold Client.trigger_panic_button, bind. rewrite E.
    apply post_authenticated_ok in E as (c & b & rest & _ & _ & -> & _).
    reflexivity. }
  split; [|exact Hok].
  destruct (post_authenticated fuel Client._ENDPOINT_PANIC_BUTTON None w) as [[b|e] w'] eqn:E.
  - exists KeyError. now rewrite (Hok b w' eq_refl).
  - exists e. unfold Client.trigger_panic_button, bind. now rewrite E.
Qed.

(** C2, witness: the server answers 200 [{"code": "000"}]. *)
Lemma trigger_panic_button_raises_witness :
  let w := {| auth := {| host := HOST; username := "user"; password := "secret";
                       refresh_token := Some "r0"; access_token := Some "a0" |}; net := [Resp 200 [("code", "000")]]; sent := [] |} in
  Client.trigger_panic_button 3 w =
    (Err KeyError, snd (post_authenticated 3 Client._ENDPOINT_PANIC_BUTTON None w)).
Proof.
  intros w. apply (proj2 (trigger_panic_button_raises 3 w) [("panic", "triggered")]).
  vm_compute. reflexivity.
Defined.

(** C8, counterexample: after a successful construction, a 401 followed by
    a token response carrying only an access token leaves the access token
    set and the refresh token absent. *)
Lemma partial_tokens_reachable :
  let w0 := {| auth := {| host := HOST; username := "user"; password := "secret";
                       refresh_token := Some "r0"; access_token := Some "a0" |};
               net := [Resp 200 [("access_token", "a1"); ("refresh_token", "r1")];
                       Resp 200 [];
                       Resp 401 [];
                       Resp 200 [("access_token", "a2")]];
               sent := [] |} in
  match init 10 "user" "secret" w0 with
  | (r1, w1) =>
      match get_authenticated 10 "/api/panel/mode/" w1 with
      | (r2, w2) =>
          r1 = Ok tt /\ r2 = Err AuthenticationError /\
          access_token (auth w2) = Some "a2" /\ refresh_token (auth w2) = None
      end
  end.
Proof. vm_compute. repeat split. Qed.

(** A token response lacking a token: [AuthenticationError], with the
    tokens of the response stored. *)
Lemma authorize_missing_token f w code data rest :
  net w = Resp code data :: rest -> is_http_error code = false ->
  get YALE_AUTHENTICATION_ACCESS_TOKEN data = None \/
  get YALE_AUTHENTICATION_REFRESH_TOKEN data = None ->
  exists w', authorize (S f) w = (Err AuthenticationError, w') /\
    access_token (auth w') = get YALE_AUTHENTICATION_ACCESS_TOKEN data /\
    refresh_token (auth w') = get YALE_AUTHENTICATION_REFRESH_TOKEN data.
Proof.
  intros En Ec Hmiss.
  cbn [authorize].
  unfold bind, get_auth, request, modify_auth, raise, ret.
  rewrite En, Ec. cbn [auth refresh_token access_token set_tokens].
  destruct Hmiss as [Ha|Hr].
  - rewrite Ha. destruct (get YALE_AUTHENTICATION_REFRESH_TOKEN data);
      eexists; repeat split; simpl; auto.
  - rewrite Hr. eexists; repeat split; simpl; auto.
Qed.

(** C8 (amended): a successful authorization leaves both tokens present,
    equal to the pair it returns; a token response lacking one of them
    raises [AuthenticationError] after storing what it carried, so a
    partially set pair is reachable. *)
Theorem authorize_tokens :
  (forall fuel w p w', authorize fuel w = (Ok p, w') ->
     exists ac rf, access_token (auth w') = Some ac /\
                   refresh_token (auth w') = Some rf /\ p = (Some ac, Some rf)) /\
  (forall f w code data rest,
     net w = Resp code data :: rest -> is_http_error code = false ->
     get YALE_AUTHENTICATION_ACCESS_TOKEN data = None \/
     get YALE_AUTHENTICATION_REFRESH_TOKEN data = None ->
     exists w', authorize (S f) w = (Err AuthenticationError, w') /\
       access_token (auth w') = get YALE_AUTHENTICATION_ACCESS_TOKEN data /\
       refresh_token (auth w') = get YALE_AUTHENTICATION_REFRESH_TOKEN data).
Proof.
  split; [exact authorize_ok | exact authorize_missing_token].
Qed.

(** C9 (amended): [_authorize] raises [AuthenticationError] when the token
    endpoint answers 401/403 or when its response lacks either token; any
    other failure of the token request raises ConnectionError (another
    4xx/5xx code or a connection error), TimeoutError (a timeout) or
    UnknownError (another [RequestException]); when the
    response carries both tokens and the services lookup succeeds it
    returns the pair. *)
Theorem authorize_contract f w :
  (forall code data rest,
     net w = Resp code data :: rest -> is_auth_failure code = true ->
     fst (authorize (S f) w) = Err AuthenticationError) /\
  (forall code data rest,
     net w = Resp code data :: rest -> is_http_error code = false ->
     get YALE_AUTHENTICATION_ACCESS_TOKEN data = None \/
     get YALE_AUTHENTICATION_REFRESH_TOKEN data = None ->
     fst (authorize (S f) w) = Err AuthenticationError) /\
  (forall o rest,
     net w = o :: rest -> failed_otherwise o = true ->
     fst (authorize (S f) w) =
       Err (match o with TTimeout => TimeoutError | TOther => UnknownError
                   | _ => ConnectionError end)) /\
  (forall code data ac rf scode sbody rest,
     net w = Resp code data :: Resp scode sbody :: rest ->
     is_http_error code = false ->
     get YALE_AUTHENTICATION_ACCESS_TOKEN data = Some ac ->
     get YALE_AUTHENTICATION_REFRESH_TOKEN data = Some rf ->
     is_http_error scode = false ->
     fst (authorize (S (S f)) w) = Ok (Some ac, Some rf)).
Proof.
  repeat split.
  - intros code data rest En Ha.
    cbn [authorize]. unfold bind, get_auth, request, raise.
    rewrite En, (auth_failure_is_http_error _ Ha), Ha. reflexivity.
  - intros code data rest En Ec Hmiss.
    destruct (authorize_missing_token f w code data rest En Ec Hmiss) as (w' & -> & _).
    reflexivity.
  - intros o rest En Ho.
    cbn [authorize]. unfold bind, get_auth, request, raise, raise_transport.
    rewrite En.
    destruct o as [code data| | |]; simpl in Ho.
    + apply andb_true_iff in Ho as [Hc Ha]. apply negb_true_iff in Ha.
      rewrite Hc, Ha. reflexivity.
    + reflexivity.
    + reflexivity.
    + reflexivity.
  - intros code data ac rf scode sbody rest En Ec Ha Hr Hs.
    cbn [authorize]. unfold bind, get_auth, request, modify_auth, raise, ret.
    rewrite En, Ec. cbn [auth net sent refresh_token access_token set_tokens].
    rewrite Hr, Ha.
    unfold update_services. cbn [get_authenticated].
    unfold bind, get_auth, request, modify_auth, ret.
    cbn [auth net sent]. rewrite Hs.
    destruct (get "yapi" sbody) as [url|];
      [destruct (0 <? String.length url)%nat|]; reflexivity.
Qed.

(** C8, witness: a token response with only an access token. *)
Lemma authorize_tokens_witness :
  let w := {| auth := {| host := HOST; username := "user"; password := "secret";
                         refresh_token := None; access_token := None |};
              net := [Resp 200 [("access_token", "a2")]]; sent := [] |} in
  exists w', authorize 1 w = (Err AuthenticationError, w') /\
    access_token (auth w') = Some "a2" /\ refresh_token (auth w') = None.
Proof.
  intros w.
  exact (proj2 authorize_tokens 0%nat w 200 [("access_token", "a2")] [] eq_refl eq_refl
           (or_intror eq_refl)).
Defined.

(** C9, witness: both tokens, then an empty services answer. *)
Lemma authorize_contract_witness :
  let w := {| auth := {| host := HOST; username := "user"; password := "secret";
                         refresh_token := None; access_token := None |};
              net := [Resp 200 [("access_token", "a1"); ("refresh_token", "r1")];
                      Resp 200 []];
              sent := [] |} in
  fst (authorize 2 w) = Ok (Some "a1", Some "r1").
Proof.
  intros w.
  exact (proj2 (proj2 (proj2 (authorize_contract 0%nat w)))
           200 [("access_token", "a1"); ("refresh_token", "r1")] "a1" "r1" 200 [] []
           eq_refl eq_refl eq_refl eq_refl eq_refl).
Defined.

(** C9, counterexample: a 200 token response that carries an access token
    but no refresh token (so it does not lack both) still makes [_authorize]
    raise [AuthenticationError]. *)
Lemma authorize_one_token_refused :
  let data := [("access_token", "a1")] in
  let w := {| auth := {| host := HOST; username := "user"; password := "secret";
                         refresh_token := None; access_token := None |};
              net := [Resp 200 data; Resp 200 []]; sent := [] |} in
  is_http_error 200 = false /\
  get YALE_AUTHENTICATION_ACCESS_TOKEN data = Some "a1" /\
  fst (authorize 5 w) = Err AuthenticationError.
Proof. vm_compute. repeat split. Qed.

End AuthProofs.

(* ------------------------------------------------------------------ *)
(** ** Command operations *)

Module CommandProofs.
Import Lock Auth LockApi.


(** C7: once the POST of [set_armed_status] (arm and disarm),
    [close_lock] or [open_lock] has returned a response whose ["code"] is
    [code], the operation returns [code == "000"]. *)
Theorem command_success_code fuel cl mode lock pin w w' body code :
  get "code" body = Some code ->
  (post_authenticated fuel Client._ENDPOINT_SET_MODE
     (Some (Client.set_mode_params cl mode)) w = (Ok body, w') ->
   Client.set_armed_status fuel cl mode w = (Ok (String.eqb code "000"), w')) /\
  (post_authenticated fuel _ENDPOINT_DEVICES_CONTROL
     (Some (close_lock_params lock)) w = (Ok body, w') ->
   exists lock', close_lock fuel lock w = (Ok (String.eqb code "000", lock'), w')) /\
  (post_authenticated fuel _ENDPOINT_DEVICES_UNLOCK
     (Some (open_lock_params lock pin)) w = (Ok body, w') ->
   exists lock', open_lock fuel lock pin w = (Ok (String.eqb code "000", lock'), w')).
Proof.
  intros Hc. repeat split; intros E.
  - unfold Client.set_armed_status, bind. rewrite E, Hc. reflexivity.
  - unfold close_lock, code_success, bind, ret. rewrite E, Hc.
    unfold CODE_SUCCESS; destruct (String.eqb code "000"); eexists; reflexivity.
  - unfold open_lock, code_success, bind, ret. rewrite E, Hc.
    unfold CODE_SUCCESS; destruct (String.eqb code "000"); eexists; reflexivity.
Qed.

(** C10: [close_lock] sets the local state to LOCKED, and [open_lock] to
    UNLOCKED, exactly when the response code is ["000"]; otherwise they
    return False and the lock object is unchanged. *)
Theorem lock_state_only_on_success fuel lock pin w w' body code :
  get "code" body = Some code ->
  (post_authenticated fuel _ENDPOINT_DEVICES_CONTROL
     (Some (close_lock_params lock)) w = (Ok body, w') ->
   (code = CODE_SUCCESS -> close_lock fuel lock w = (Ok (true, set_state lock Lock.LOCKED), w')) /\
   (code <> CODE_SUCCESS -> close_lock fuel lock w = (Ok (false, lock), w'))) /\
  (post_authenticated fuel _ENDPOINT_DEVICES_UNLOCK
     (Some (open_lock_params lock pin)) w = (Ok body, w') ->
   (code = CODE_SUCCESS -> open_lock fuel lock pin w = (Ok (true, set_state lock Lock.UNLOCKED), w')) /\
   (code <> CODE_SUCCESS -> open_lock fuel lock pin w = (Ok (false, lock), w'))).
Proof.
  intros Hc. split; intros E; split; intros Hcode;
    unfold close_lock, open_lock, code_success, bind, ret; rewrite E, Hc;
    [ rewrite Hcode | apply String.eqb_neq in Hcode; rewrite Hcode
    | rewrite Hcode | apply String.eqb_neq in Hcode; rewrite Hcode ];
    reflexivity.
Qed.

(** C7, witness: disarm, answered with code ["000"]. *)
Lemma command_success_code_witness :
  let w := {| auth := {| host := HOST; username := "user"; password := "secret";
                         refresh_token := Some "r0"; access_token := Some "a0" |};
              net := [Resp 200 [("code", "000")]]; sent := [] |} in
  let cl := {| Client.area_id := 1 |} in
  let lock := {| _device := {| type := "device_type.door_lock"; name := "front";
                               area := "1"; address := "RF:01"; no := "1";
                               status1 := ""; minigw_lock_status := "11";
                               minigw_configuration_data := Py.zeros 32 |};
                 lock_name := "front";
                 _config := YaleLockConfig_init (Py.zeros 32);
                 _state := Lock.LOCKED |} in
  Client.set_armed_status 1 cl Client.YALE_STATE_DISARM w =
    (Ok true, snd (post_authenticated 1 Client._ENDPOINT_SET_MODE
                     (Some (Client.set_mode_params cl Client.YALE_STATE_DISARM)) w)).
Proof.
  intros w cl lock.
  apply (proj1 (command_success_code 1%nat cl Client.YALE_STATE_DISARM lock "1234" w _
                  [("code", "000")] "000" eq_refl)).
  vm_compute. reflexivity.
Defined.

(** C10, witness: [close_lock] answered with code ["001"]. *)
Lemma lock_state_only_on_success_witness :
  let w := {| auth := {| host := HOST; username := "user"; password := "secret";
                         refresh_token := Some "r0"; access_token := Some "a0" |};
              net := [Resp 200 [("code", "001")]]; sent := [] |} in
  let lock := {| _device := {| type := "device_type.door_lock"; name := "front";
                               area := "1"; address := "RF:01"; no := "1";
                               status1 := ""; minigw_lock_status := "10";
                               minigw_configuration_data := Py.zeros 32 |};
                 lock_name := "front";
                 _config := YaleLockConfig_init (Py.zeros 32);
                 _state := Lock.UNLOCKED |} in
  close_lock 1 lock w =
    (Ok (false, lock), snd (post_authenticated 1 _ENDPOINT_DEVICES_CONTROL
                              (Some (close_lock_params lock)) w)).
Proof.
  intros w lock.
  apply (proj2 (proj1 (lock_state_only_on_success 1%nat lock "1234" w _
                         [("code", "001")] "001" eq_refl) ltac:(vm_compute; reflexivity))).
  discriminate.
Defined.

End CommandProofs.

(* ------------------------------------------------------------------ *)
(** ** Requests, re-authentication and retries *)

Module AuthExtra.
Import Auth AuthLog ClientData.

Lemma grows_ret {A} (x : A) : grows (ret x).
Proof. intros w. exists []. now rewrite app_nil_r. Qed.

Lemma grows_raise {A} e : grows (@raise A e).
Proof. intros w. exists []. now rewrite app_nil_r. Qed.

Lemma grows_get_auth : grows get_auth.
Proof. intros w. exists []. now rewrite app_nil_r. Qed.

Lemma grows_modify f : grows (modify_auth f).
Proof. intros w. exists []. now rewrite app_nil_r. Qed.

Lemma grows_request r : grows (request r).
Proof. intros w. unfold request. destruct (net w); eexists; reflexivity. Qed.

Lemma grows_raise_transport {A} o : grows (@raise_transport A o).
Proof. destruct o; apply grows_raise. Qed.

Lemma grows_bind {A B} (m : M A) (k : A -> M B) :
  grows m -> (forall x, grows (k x)) -> grows (bind m k).
Proof.
  intros Hm Hk w. unfold bind.
  destruct (Hm w) as [t1 E1].
  destruct (m w) as [[x|e] w1] eqn:Em; simpl in E1 |- *.
  - destruct (Hk x w1) as [t2 E2]. rewrite E2, E1, <- app_assoc. eauto.
  - eauto.
Qed.

Lemma grows_update_services (g : string -> M Body) :
  (forall ep, grows (g ep)) -> grows (update_services g).
Proof.
  intros Hg. unfold update_services. apply grows_bind; [apply Hg|].
  intros data. destruct (get "yapi" data) as [url|];
    [destruct (0 <? String.length url)%nat|]; auto using grows_modify, grows_ret.
Qed.

Ltac grows_step :=
  repeat (first [ apply grows_bind | apply grows_ret | apply grows_raise
                | apply grows_get_auth | apply grows_modify | apply grows_request
                | apply grows_raise_transport | intros ]).

Lemma grows_auth_calls fuel :
  (forall ep, grows (get_authenticated fuel ep)) /\ grows (authorize fuel).
Proof.
  induction fuel as [|f [IHg IHa]]; split.
  - intros ep; apply grows_raise.
  - apply grows_raise.
  - intros ep. cbn [get_authenticated]. grows_step.
    match goal with |- grows (match ?o with _ => _ end) => destruct o end;
      grows_step; auto.
    destruct (is_http_error _); [destruct (is_auth_failure _)|]; grows_step; auto.
  - cbn [authorize]. grows_step.
    match goal with |- grows (match ?o with _ => _ end) => destruct o end;
      grows_step; auto.
    destruct (is_http_error _); [destruct (is_auth_failure _)|]; grows_step.
    match goal with |- grows (match ?a with _ => _ end) => destruct a end;
      [match goal with |- grows (match ?a with _ => _ end) => destruct a end|];
      grows_step; auto using grows_update_services.
  all: match goal with |- grows (match ?d with _ => _ end) => destruct d as [url|] end;
    [destruct (0 <? String.length url)%nat|]; grows_step.
Qed.

Lemma grows_post fuel ep params : grows (post_authenticated fuel ep params).
Proof.
  revert ep params. induction fuel as [|f IH]; intros ep params; [apply grows_raise|].
  destruct (grows_auth_calls f) as [_ Ha].
  cbn [post_authenticated]. grows_step.
  match goal with |- grows (match ?o with _ => _ end) => destruct o end;
    grows_step; auto.
  destruct (is_http_error _); [destruct (is_auth_failure _)|]; grows_step; auto.
  destruct (Py.contains "panic" ep); grows_step.
Qed.

Lemma bind_get_auth {B} (k : YaleAuth -> M B) w : bind get_auth k w = k (auth w) w.
Proof. reflexivity. Qed.

Lemma bind_request_sent {B} r (k : Outcome -> M B) w :
  (forall o, grows (k o)) ->
  exists t, sent (snd (bind (request r) k w)) = (sent w ++ r :: t)%list.
Proof.
  intros Hk. unfold bind at 1, request.
  destruct (net w) as [|o rest]; simpl;
    match goal with |- exists t, sent (snd (k ?o ?w1)) = _ =>
      destruct (Hk o w1) as [t E] end;
    rewrite E; simpl; exists t; now rewrite <- app_assoc.
Qed.

Lemma authorize_first_request f w :
  exists t, sent (snd (authorize (S f) w)) =
    (sent w ++ POST (host (auth w) ++ ENDPOINT_TOKEN) basic_header
      (Some (if truthy (refresh_token (auth w)) then
               match refresh_token (auth w) with
               | Some r => [("grant_type", PStr "refresh_token"); ("refresh_token", PStr r)]
               | None => []
               end
             else [("grant_type", PStr "password"); ("username", PStr (username (auth w)));
                   ("password", PStr (password (auth w)))])) :: t)%list.
Proof.
  destruct (grows_auth_calls f) as [Hg _].
  cbn [authorize]. rewrite bind_get_auth. cbv beta zeta.
  apply bind_request_sent. intros o.
  destruct o; grows_step; auto.
  destruct (is_http_error _); [destruct (is_auth_failure _)|]; grows_step.
  match goal with |- grows (match ?a with _ => _ end) => destruct a end;
    [match goal with |- grows (match ?a with _ => _ end) => destruct a end|];
    grows_step; auto using grows_update_services.
  all: match goal with |- grows (match ?d with _ => _ end) => destruct d as [url|] end;
    [destruct (0 <? String.length url)%nat|]; grows_step.
Qed.

(** X6: [_authorize] asks for a refresh grant exactly when a non-empty refresh token is held, and for a password grant otherwise. *)
Theorem authorize_grant_type f w :
  (forall r, refresh_token (auth w) = Some r -> r <> "" ->
   exists t, sent (snd (authorize (S f) w)) =
     (sent w ++ POST (host (auth w) ++ ENDPOINT_TOKEN) basic_header
       (Some [("grant_type", PStr "refresh_token"); ("refresh_token", PStr r)]) :: t)%list) /\
  (truthy (refresh_token (auth w)) = false ->
   exists t, sent (snd (authorize (S f) w)) =
     (sent w ++ POST (host (auth w) ++ ENDPOINT_TOKEN) basic_header
       (Some [("grant_type", PStr "password"); ("username", PStr (username (auth w)));
               ("password", PStr (password (auth w)))]) :: t)%list).
Proof.
  destruct (authorize_first_request f w) as [t E]. split.
  - intros r Hr Hne. exists t. rewrite E, Hr. unfold truthy.
    apply String.eqb_neq in Hne. now rewrite Hne.
  - intros Hf. exists t. now rewrite E, Hf.
Qed.

Lemma bind_sent {A B} (m : M A) (k : A -> M B) w :
  (forall x, grows (k x)) ->
  exists t, sent (snd (bind m k w)) = (sent (snd (m w)) ++ t)%list.
Proof.
  intros Hk. unfold bind. destruct (m w) as [[x|e] w2]; simpl.
  - apply Hk.
  - exists []. now rewrite app_nil_r.
Qed.

Lemma get_auth_failure_step f ep w code body rest :
  net w = Resp code body :: rest -> is_auth_failure code = true ->
  get_authenticated (S f) ep w =
    (authorize f;; get_authenticated f ep;; raise ConnectionError)
      {| auth := set_tokens (auth w) None None; net := rest;
         sent := (sent w ++ [GET (host (auth w) ++ ep) (auth_headers (auth w))])%list |}.
Proof.
  intros En Ha. pose proof (AuthProofs.auth_failure_is_http_error _ Ha) as Hh.
  destruct w as [a n s]; simpl in En; subst n.
  cbn [get_authenticated]. cbv [bind get_auth request modify_auth auth net sent]. rewrite Hh, Ha. reflexivity.
Qed.

Lemma post_auth_failure_step f ep params w code body rest :
  net w = Resp code body :: rest -> is_auth_failure code = true ->
  exists r, post_authenticated (S f) ep params w =
    (authorize f;; post_authenticated f ep params;; raise ConnectionError)
      {| auth := set_tokens (auth w) None None; net := rest;
         sent := (sent w ++ [r])%list |}.
Proof.
  intros En Ha. pose proof (AuthProofs.auth_failure_is_http_error _ Ha) as Hh.
  destruct w as [a n s]; simpl in En; subst n.
  eexists. cbn [post_authenticated]. cbv [bind get_auth request modify_auth auth net sent]. rewrite Hh, Ha. reflexivity.
Qed.

(** X5: after a 401/403 the tokens are cleared before [_authorize], so the re-authentication that follows is always a password grant, even when a refresh token was held. *)
Theorem reauth_uses_password f ep params w code body rest :
  net w = Resp code body :: rest -> is_auth_failure code = true ->
  (exists t, sent (snd (get_authenticated (S (S f)) ep w)) =
     (sent w ++ GET (host (auth w) ++ ep) (auth_headers (auth w)) ::
       POST (host (auth w) ++ ENDPOINT_TOKEN) basic_header
         (Some [("grant_type", PStr "password"); ("username", PStr (username (auth w)));
               ("password", PStr (password (auth w)))]) :: t)%list) /\
  (exists r t, sent (snd (post_authenticated (S (S f)) ep params w)) =
     (sent w ++ r ::
       POST (host (auth w) ++ ENDPOINT_TOKEN) basic_header
         (Some [("grant_type", PStr "password"); ("username", PStr (username (auth w)));
               ("password", PStr (password (auth w)))]) :: t)%list).
Proof.
  intros En Ha.
  destruct (grows_auth_calls (S f)) as [Hg _]. split.
  - rewrite (get_auth_failure_step (S f) ep w code body rest En Ha).
    match goal with |- context [bind (authorize (S f)) ?k ?w1] =>
      assert (Hk : forall x, grows (k x)) by (intros; apply grows_bind; [apply Hg | intros; apply grows_raise]);
      destruct (bind_sent (authorize (S f)) k w1 Hk) as [t2 E2];
      destruct (authorize_first_request f w1) as [t1 E1] end.
    rewrite E2, E1. cbn. exists (t1 ++ t2)%list.
    rewrite <- !app_assoc. reflexivity.
  - destruct (post_auth_failure_step (S f) ep params w code body rest En Ha) as [r ->].
    match goal with |- context [bind (authorize (S f)) ?k ?w1] =>
      assert (Hk : forall x, grows (k x)) by (intros; apply grows_bind; [apply grows_post | intros; apply grows_raise]);
      destruct (bind_sent (authorize (S f)) k w1 Hk) as [t2 E2];
      destruct (authorize_first_request f w1) as [t1 E1] end.
    rewrite E2, E1. cbn. exists r, (t1 ++ t2)%list.
    rewrite <- !app_assoc. reflexivity.
Qed.

(* ---- string helpers ---- *)
Lemma substring_app_l a b : String.substring 0 (String.length a) (a ++ b) = a.
Proof. induction a as [|c a IH]; simpl; [now destruct b|now rewrite IH]. Qed.

Lemma substring_app_r a b n : String.substring (String.length a) n (a ++ b) = String.substring 0 n b.
Proof. induction a as [|c a IH]; simpl; [reflexivity|exact IH]. Qed.

Lemma length_app a b : String.length (a ++ b) = (String.length a + String.length b)%nat.
Proof. induction a as [|c a IH]; simpl; [reflexivity|now rewrite IH]. Qed.

Lemma take_neg_app a b : Py.take_neg (a ++ b) (String.length b) = a.
Proof.
  unfold Py.take_neg. rewrite length_app, Nat.add_sub. apply substring_app_l.
Qed.

Lemma ends_with_slash_app url : ends_with_slash (url ++ "/") = true.
Proof.
  unfold ends_with_slash. rewrite length_app. simpl. rewrite Nat.add_1_r.
  rewrite substring_app_r. reflexivity.
Qed.

(* ---- single steps ---- *)
Lemma get_success_step f ep w code body rest :
  net w = Resp code body :: rest -> is_http_error code = false ->
  get_authenticated (S f) ep w =
    (Ok body, {| auth := auth w; net := rest;
                 sent := (sent w ++ [GET (host (auth w) ++ ep) (auth_headers (auth w))])%list |}).
Proof.
  intros En Hh. destruct w as [a n s]; simpl in En; subst n.
  cbn [get_authenticated]. cbv [bind get_auth request ret auth net sent].
  rewrite Hh. reflexivity.
Qed.

Lemma get_failed_step f ep w o rest :
  net w = o :: rest -> failed_otherwise o = true ->
  get_authenticated (S f) ep w =
    (Err (match o with TTimeout => TimeoutError | TOther => UnknownError
                  | _ => ConnectionError end),
     {| auth := auth w; net := rest;
        sent := (sent w ++ [GET (host (auth w) ++ ep) (auth_headers (auth w))])%list |}).
Proof.
  intros En Hf. destruct w as [a n s]; simpl in En; subst n.
  cbn [get_authenticated]. cbv [bind get_auth request raise raise_transport auth net sent].
  destruct o as [code body| | |]; try reflexivity.
  simpl in Hf. apply andb_true_iff in Hf as [Hh Ha]. apply negb_true_iff in Ha.
  rewrite Hh, Ha. reflexivity.
Qed.

(** X1: a request answered without an HTTP error sends exactly one request (a GET, or a POST whose URL drops the last five characters of the host for a [panic] endpoint), leaves the tokens and host untouched, and returns the body; [post_authenticated] returns the fixed [{"panic": "triggered"}] for a [panic] endpoint instead. *)
Theorem request_success f ep params w code body rest :
  net w = Resp code body :: rest -> is_http_error code = false ->
  get_authenticated (S f) ep w =
    (Ok body, {| auth := auth w; net := rest;
                 sent := (sent w ++ [GET (host (auth w) ++ ep) (auth_headers (auth w))])%list |}) /\
  post_authenticated (S f) ep params w =
    (Ok (if Py.contains "panic" ep then [("panic", "triggered")] else body),
     {| auth := auth w; net := rest;
        sent := (sent w ++ [POST (if Py.contains "panic" ep
                                  then Py.take_neg (host (auth w)) 5 ++ ep
                                  else host (auth w) ++ ep)
                                 (auth_headers (auth w)) params])%list |}).
Proof.
  intros En Hh. split; [exact (get_success_step f ep w code body rest En Hh)|].
  destruct w as [a n s]; simpl in En; subst n.
  cbn [post_authenticated]. cbv [bind get_auth request ret auth net sent].
  rewrite Hh. destruct (Py.contains "panic" ep); reflexivity.
Qed.

(** X2: a first answer that is a transport failure or an HTTP error other than 401/403 ends the call after that single request, with the tokens untouched: [Timeout] gives TimeoutError, another [RequestException] gives UnknownError, the rest ConnectionError. *)
Theorem request_failed f ep params w o rest :
  net w = o :: rest -> failed_otherwise o = true ->
  let e := match o with TTimeout => TimeoutError | TOther => UnknownError
                   | _ => ConnectionError end in
  get_authenticated (S f) ep w =
    (Err e, {| auth := auth w; net := rest;
               sent := (sent w ++ [GET (host (auth w) ++ ep) (auth_headers (auth w))])%list |}) /\
  exists r, post_authenticated (S f) ep params w =
    (Err e, {| auth := auth w; net := rest; sent := (sent w ++ [r])%list |}).
Proof.
  intros En Hf e. split; [exact (get_failed_step f ep w o rest En Hf)|].
  destruct w as [a n s]; simpl in En; subst n.
  eexists. cbn [post_authenticated]. cbv [bind get_auth request raise raise_transport auth net sent].
  destruct o as [code body| | |]; try reflexivity.
  simpl in Hf. apply andb_true_iff in Hf as [Hh Ha]. apply negb_true_iff in Ha.
  rewrite Hh, Ha. reflexivity.
Qed.

(** X3: when the host ends in [/yapi], the panic POST goes to the same server without that suffix, and its answer is replaced by [{"panic": "triggered"}]. *)
Theorem panic_url f params w base code body rest :
  host (auth w) = base ++ "/yapi" ->
  net w = Resp code body :: rest -> is_http_error code = false ->
  post_authenticated (S f) Client._ENDPOINT_PANIC_BUTTON params w =
    (Ok [("panic", "triggered")],
     {| auth := auth w; net := rest;
        sent := (sent w ++ [POST (base ++ Client._ENDPOINT_PANIC_BUTTON)
                                 (auth_headers (auth w)) params])%list |}).
Proof.
  intros Hb En Hh.
  destruct w as [a n s]; simpl in En, Hb; subst n.
  cbn [post_authenticated]. cbv [bind get_auth request ret auth net sent].
  rewrite Hh, Hb. change 5%nat with (String.length "/yapi"). rewrite take_neg_app.
  reflexivity.
Qed.

(** X4: [_update_services] sets the host to the [yapi] URL of the services answer with one trailing slash removed, and leaves it unchanged when that URL is missing or empty. *)
Theorem update_services_host f w code body rest :
  net w = Resp code body :: rest -> is_http_error code = false ->
  let w1 a := {| auth := a; net := rest;
                 sent := (sent w ++ [GET (host (auth w) ++ ENDPOINT_SERVICES)
                                         (auth_headers (auth w))])%list |} in
  (forall url, get "yapi" body = Some (url ++ "/") ->
     update_services (get_authenticated (S f)) w = (Ok tt, w1 (set_host (auth w) url))) /\
  (forall url, get "yapi" body = Some url -> url <> "" -> ends_with_slash url = false ->
     update_services (get_authenticated (S f)) w = (Ok tt, w1 (set_host (auth w) url))) /\
  (get "yapi" body = None \/ get "yapi" body = Some "" ->
     update_services (get_authenticated (S f)) w = (Ok tt, w1 (auth w))).
Proof.
  intros En Hh w1. unfold update_services.
  split; [intros url Hy|split; [intros url Hy Hne Hs|intros Hy]]; unfold bind at 1;
    rewrite (get_success_step f ENDPOINT_SERVICES w code body rest En Hh).
  - cbv beta. rewrite Hy, length_app, ends_with_slash_app. simpl.
    rewrite Nat.add_1_r. change 1%nat with (String.length "/"). rewrite take_neg_app.
    reflexivity.
  - cbv beta. rewrite Hy, Hs.
    destruct url as [|c url]; [congruence|]. reflexivity.
  - cbv beta. destruct Hy as [Hy|Hy]; rewrite Hy; reflexivity.
Qed.

(** X7: constructing a [YaleAuth] always starts with a password grant to the default host, whatever the previous state. *)
Theorem init_password_grant f u p w :
  exists t, sent (snd (init (S f) u p w)) =
    (sent w ++ POST (HOST ++ ENDPOINT_TOKEN) basic_header
      (Some [("grant_type", PStr "password"); ("username", PStr u);
             ("password", PStr p)]) :: t)%list.
Proof.
  unfold init. unfold bind at 1. cbv [modify_auth].
  match goal with |- context [bind (authorize (S f)) ?k ?w1] =>
    assert (Hk : forall x, grows (k x)) by (intros; apply grows_ret);
    destruct (bind_sent (authorize (S f)) k w1 Hk) as [t2 E2];
    destruct (authorize_first_request f w1) as [t1 E1] end.
  rewrite E2, E1. cbn. exists (t1 ++ t2)%list. rewrite <- app_assoc. reflexivity.
Qed.

Lemma retrying_eq {A} k (op : M A) w :
  retrying k op w =
    match op w with
    | (Ok x, w') => (Ok x, w')
    | (Err e, w') => match k with O => (Err e, w') | S k' => retrying k' op w' end
    end.
Proof. destruct k; reflexivity. Qed.

Lemma retrying_timeouts f k ep w n code body rest :
  net w = (repeat TTimeout n ++ Resp code body :: rest)%list -> is_http_error code = false ->
  let r := GET (host (auth w) ++ ep) (auth_headers (auth w)) in
  retrying k (get_authenticated (S f) ep) w =
    if (n <=? k)%nat
    then (Ok body, {| auth := auth w; net := rest; sent := (sent w ++ repeat r (S n))%list |})
    else (Err TimeoutError,
          {| auth := auth w; net := (repeat TTimeout (n - S k) ++ Resp code body :: rest)%list;
             sent := (sent w ++ repeat r (S k))%list |}).
Proof.
  intros En Hh r. revert k w En r. induction n as [|n IH]; intros k w En r.
  - rewrite retrying_eq, (get_success_step f ep w code body rest En Hh). reflexivity.
  - rewrite retrying_eq. simpl in En.
    rewrite (get_failed_step f ep w TTimeout _ En eq_refl). cbv beta iota.
    destruct k as [|k].
    + simpl. rewrite Nat.sub_0_r. reflexivity.
    + match goal with |- context [retrying k _ ?w1] => specialize (IH k w1 eq_refl) end.
      cbv zeta in IH. rewrite IH. cbn [auth sent]. fold r.
      change (S n <=? S k)%nat with (n <=? k)%nat.
      destruct (n <=? k)%nat; rewrite <- app_assoc; reflexivity.
Qed.

(** X8: the [get_*] retry loop: after [n] timeouts and then a good answer, a loop allowed [retry] retries returns the body after [n + 1] identical GETs when [n <= retry], and otherwise re-raises TimeoutError after [retry + 1] GETs; a negative [retry] means no retry. *)
Theorem fetch_with_retry_timeouts f retry ep w n code body rest :
  net w = (repeat TTimeout n ++ Resp code body :: rest)%list -> is_http_error code = false ->
  let r := GET (host (auth w) ++ ep) (auth_headers (auth w)) in
  let k := Z.to_nat retry in
  fetch_with_retry (S f) retry ep w =
    if (n <=? k)%nat
    then (Ok body, {| auth := auth w; net := rest; sent := (sent w ++ repeat r (S n))%list |})
    else (Err TimeoutError,
          {| auth := auth w; net := (repeat TTimeout (n - S k) ++ Resp code body :: rest)%list;
             sent := (sent w ++ repeat r (S k))%list |}).
Proof.
  intros En Hh r k. exact (retrying_timeouts f k ep w n code body rest En Hh).
Qed.


(** X1, witness: the mode GET and POST answered with 200. *)
Lemma request_success_witness :
  let w := {| auth := {| host := HOST; username := "user"; password := "secret";
                         refresh_token := Some "r0"; access_token := Some "a0" |};
              net := [Resp 200 [("mode", "disarm")]]; sent := [] |} in
  fst (get_authenticated 1 "/api/panel/mode/" w) = Ok [("mode", "disarm")] /\
  fst (post_authenticated 1 "/api/panel/mode/" None w) = Ok [("mode", "disarm")].
Proof.
  intros w.
  destruct (request_success 0 "/api/panel/mode/" None w 200 [("mode", "disarm")] []
              eq_refl eq_refl) as [E1 E2].
  rewrite E1, E2. split; reflexivity.
Defined.

(** X2, witness: a timeout. *)
Lemma request_failed_witness :
  let w := {| auth := {| host := HOST; username := "user"; password := "secret";
                         refresh_token := Some "r0"; access_token := Some "a0" |};
              net := [TTimeout]; sent := [] |} in
  fst (get_authenticated 1 "/api/panel/mode/" w) = Err TimeoutError.
Proof.
  intros w.
  rewrite (proj1 (request_failed 0 "/api/panel/mode/" None w TTimeout [] eq_refl eq_refl)).
  reflexivity.
Defined.

(** X3, witness: the default host. *)
Lemma panic_url_witness :
  let w := {| auth := {| host := HOST; username := "user"; password := "secret";
                         refresh_token := Some "r0"; access_token := Some "a0" |};
              net := [Resp 200 [("code", "000")]]; sent := [] |} in
  sent (snd (post_authenticated 1 Client._ENDPOINT_PANIC_BUTTON None w)) =
    [POST "https://host.invalid/api/panel/panic" "Bearer a0" None].
Proof.
  intros w.
  rewrite (panic_url 0 None w "https://host.invalid" 200 [("code", "000")] []
             eq_refl eq_refl eq_refl).
  reflexivity.
Defined.

(** X4, witness: a services answer whose [yapi] URL ends in a slash. *)
Lemma update_services_host_witness :
  let w := {| auth := {| host := HOST; username := "user"; password := "secret";
                         refresh_token := Some "r0"; access_token := Some "a0" |};
              net := [Resp 200 [("yapi", "https://other.invalid/yapi/")]]; sent := [] |} in
  host (auth (snd (update_services (get_authenticated 1) w))) = "https://other.invalid/yapi".
Proof.
  intros w.
  rewrite (proj1 (update_services_host 0 w 200 [("yapi", "https://other.invalid/yapi/")] []
                    eq_refl eq_refl) "https://other.invalid/yapi" eq_refl).
  reflexivity.
Defined.

(** X5, witness: a 401 while a refresh token is held. *)
Lemma reauth_uses_password_witness :
  let w := {| auth := {| host := HOST; username := "user"; password := "secret";
                         refresh_token := Some "r0"; access_token := Some "a0" |};
              net := [Resp 401 []]; sent := [] |} in
  exists t, sent (snd (get_authenticated 2 "/api/panel/mode/" w)) =
    (GET "https://host.invalid/yapi/api/panel/mode/" "Bearer a0" ::
     POST "https://host.invalid/yapi/o/token/" basic_header
       (Some [("grant_type", PStr "password"); ("username", PStr "user");
              ("password", PStr "secret")]) :: t)%list.
Proof.
  intros w.
  exact (proj1 (reauth_uses_password 0 "/api/panel/mode/" None w 401 [] [] eq_refl eq_refl)).
Defined.

(** X6, witness: the refresh token ["r0"]. *)
Lemma authorize_grant_type_witness :
  let w := {| auth := {| host := HOST; username := "user"; password := "secret";
                         refresh_token := Some "r0"; access_token := Some "a0" |};
              net := []; sent := [] |} in
  exists t, sent (snd (authorize 1 w)) =
    (POST "https://host.invalid/yapi/o/token/" basic_header
       (Some [("grant_type", PStr "refresh_token"); ("refresh_token", PStr "r0")]) :: t)%list.
Proof.
  intros w.
  exact (proj1 (authorize_grant_type 0 w) "r0" eq_refl ltac:(discriminate)).
Defined.

(** X8, witness: two timeouts, then a good answer; three retries allowed. *)
Lemma fetch_with_retry_timeouts_witness :
  let w := {| auth := {| host := HOST; username := "user"; password := "secret";
                         refresh_token := Some "r0"; access_token := Some "a0" |};
              net := [TTimeout; TTimeout; Resp 200 [("data", "x")]]; sent := [] |} in
  fst (fetch_with_retry 1 3 "/api/panel/cycle/" w) = Ok [("data", "x")] /\
  List.length (sent (snd (fetch_with_retry 1 3 "/api/panel/cycle/" w))) = 3%nat.
Proof.
  intros w.
  pose proof (fetch_with_retry_timeouts 0 3 "/api/panel/cycle/" w 2 200 [("data", "x")] []
                eq_refl eq_refl) as H.
  cbv zeta in H. rewrite H. split; reflexivity.
Defined.

End AuthExtra.

(* ------------------------------------------------------------------ *)
(** ** Lock configuration strings and lock objects *)

Module LockExtra.
Import Lock Auth LockApi LockOps.

Lemma substring_length s n m :
  (n + m <= String.length s)%nat -> String.length (String.substring n m s) = m.
Proof.
  revert n m. induction s as [|c s IH]; intros n m H; simpl in H.
  - assert (n = 0%nat /\ m = 0%nat) as [-> ->] by lia. reflexivity.
  - destruct n as [|n]; [destruct m as [|m]|]; simpl.
    + reflexivity.
    + f_equal. apply IH. lia.
    + apply IH. lia.
Qed.

(** X9: for two-character fields, [to_string] writes them at offsets 0, 2, 8 and 30 and fills every other position with ['0']. *)
Theorem to_string_layout (c : YaleLockConfig) :
  String.length (volume c) = 2%nat -> String.length (autolock c) = 2%nat ->
  String.length (language c) = 2%nat -> String.length (arm_hold_time c) = 2%nat ->
  to_string c = volume c ++ autolock c ++ "0000" ++ language c ++ Py.zeros 20 ++ arm_hold_time c.
Proof.
  destruct c as [v a l t]; simpl; intros Hv Ha Hl Ht.
  destruct (LockProofs.string_length_2 v Hv) as (v1 & v2 & ->).
  destruct (LockProofs.string_length_2 a Ha) as (a1 & a2 & ->).
  destruct (LockProofs.string_length_2 l Hl) as (l1 & l2 & ->).
  destruct (LockProofs.string_length_2 t Ht) as (t1 & t2 & ->).
  reflexivity.
Qed.

Lemma init_fields_2 s :
  (32 <= String.length s)%nat ->
  let c := YaleLockConfig_init s in
  String.length (volume c) = 2%nat /\ String.length (autolock c) = 2%nat /\
  String.length (language c) = 2%nat /\ String.length (arm_hold_time c) = 2%nat.
Proof.
  intros H c. unfold c, YaleLockConfig_init, Py.slice; simpl.
  repeat split; apply substring_length; lia.
Qed.

(** X10: re-serialising a configuration read from a string of at least 32 characters keeps the four fields and resets every other character to ['0']; reading it back gives the same configuration. *)
Theorem config_reserialize s :
  (32 <= String.length s)%nat ->
  let c := YaleLockConfig_init s in
  to_string c = Py.slice s 0 2 ++ Py.slice s 2 4 ++ "0000" ++ Py.slice s 8 10 ++
                Py.zeros 20 ++ Py.slice s 30 32 /\
  YaleLockConfig_init (to_string c) = c.
Proof.
  intros H c. destruct (init_fields_2 s H) as (Hv & Ha & Hl & Ht).
  unfold c in *. unfold YaleLockConfig_init in *; simpl in Hv, Ha, Hl, Ht |- *.
  revert Hv Ha Hl Ht.
  generalize (Py.slice s 0 2), (Py.slice s 2 4), (Py.slice s 8 10), (Py.slice s 30 32).
  intros v a l t Hv Ha Hl Ht.
  destruct (LockProofs.string_length_2 v Hv) as (v1 & v2 & ->).
  destruct (LockProofs.string_length_2 a Ha) as (a1 & a2 & ->).
  destruct (LockProofs.string_length_2 l Hl) as (l1 & l2 & ->).
  destruct (LockProofs.string_length_2 t Ht) as (t1 & t2 & ->).
  split; reflexivity.
Qed.

(** X11: [YaleLock.update] always replaces the device and the name; the state and the configuration change only when decoding the state succeeds, so a ValueError leaves a lock with the new device and name but the old state and configuration. *)
Theorem update_partial (lock : YaleLock) (device : Device) :
  let '(r, lock') := update lock device in
  _device lock' = device /\ lock_name lock' = name device /\
  match r with
  | Ok _ => calc_state device = Ok (_state lock') /\
            _config lock' = YaleLockConfig_init (minigw_configuration_data device)
  | Err e => calc_state device = Err e /\
             _config lock' = _config lock /\ _state lock' = _state lock
  end.
Proof.
  unfold update. destruct (calc_state device) as [s|e] eqn:E; simpl; auto.
Qed.

Lemma YaleLock_init_ok d l :
  YaleLock_init d = Ok l ->
  _device l = d /\ lock_name l = name d /\ calc_state d = Ok (_state l) /\
  _config l = YaleLockConfig_init (minigw_configuration_data d).
Proof.
  unfold YaleLock_init, update. destruct (calc_state d) eqn:E; intros H;
    inversion H; subst; simpl; auto.
Qed.

(** X12: a lock returned by [YaleDoorManAPI.get] has the requested name, comes from a door-lock device of the list, and carries that device's decoded state and configuration. *)
Theorem get_lock_found ds n l :
  get_lock ds n = Ok (Some l) ->
  lock_name l = n /\ In (_device l) ds /\ type (_device l) = DEVICE_TYPE /\
  calc_state (_device l) = Ok (_state l) /\
  _config l = YaleLockConfig_init (minigw_configuration_data (_device l)).
Proof.
  induction ds as [|d ds IH]; simpl; [discriminate|].
  destruct (String.eqb (type d) DEVICE_TYPE) eqn:Et.
  - destruct (YaleLock_init d) as [l0|e] eqn:Ei; [|discriminate].
    destruct (String.eqb (lock_name l0) n) eqn:En.
    + intros H; inversion H; subst l0.
      destruct (YaleLock_init_ok d l Ei) as (Hd & Hn & Hs & Hc).
      apply String.eqb_eq in En, Et. rewrite Hd. auto.
    + intros H. destruct (IH H) as (? & ? & ?). auto.
  - intros H. destruct (IH H) as (? & ? & ?). auto.
Qed.

Lemma get_lock_app ds1 ds2 n :
  (forall d, In d ds1 -> type d = DEVICE_TYPE ->
     exists l, YaleLock_init d = Ok l /\ name d <> n) ->
  get_lock (ds1 ++ ds2) n = get_lock ds2 n.
Proof.
  induction ds1 as [|d ds1 IH]; intros H; simpl; [reflexivity|].
  destruct (String.eqb (type d) DEVICE_TYPE) eqn:Et; [|apply IH; intros; apply H; [right|]; assumption].
  apply String.eqb_eq in Et. destruct (H d (or_introl eq_refl) Et) as (l & Ei & Hn).
  rewrite Ei. destruct (YaleLock_init_ok d l Ei) as (_ & -> & _).
  apply String.eqb_neq in Hn. rewrite Hn. apply IH. intros; apply H; [right|]; assumption.
Qed.

(** X13: [YaleDoorManAPI.get] stops at the first door lock with the requested name, whatever the devices after it are (even undecodable ones); a door lock whose state cannot be decoded, met before any lock with that name, makes it raise. *)
Theorem get_lock_first ds1 d ds2 n :
  (forall d', In d' ds1 -> type d' = DEVICE_TYPE ->
     exists l, YaleLock_init d' = Ok l /\ name d' <> n) ->
  type d = DEVICE_TYPE ->
  (forall l, YaleLock_init d = Ok l -> name d = n ->
     get_lock (ds1 ++ d :: ds2) n = Ok (Some l)) /\
  (forall e, calc_state d = Err e -> get_lock (ds1 ++ d :: ds2) n = Err e).
Proof.
  intros H1 Ht. rewrite (get_lock_app ds1 (d :: ds2) n H1). simpl.
  rewrite Ht, String.eqb_refl. split.
  - intros l Ei Hn. rewrite Ei. destruct (YaleLock_init_ok d l Ei) as (_ & -> & _).
    rewrite Hn, String.eqb_refl. reflexivity.
  - intros e Ec. unfold YaleLock_init, update. rewrite Ec. reflexivity.
Qed.

(** X14: [set_volume] and [set_autolock] never return True: when the
    response code is "000" they update the local configuration and then
    fail with AttributeError in [_put_lock_request] ([YaleAuth] has no
    [put_authenticated]); when it is another code they return False and
    leave the lock unchanged. *)
Theorem lock_settings_never_true fuel lock w :
  (forall v,
     fst (fst (set_volume fuel lock v w)) <> PReturn true /\
     forall ops w',
       post_authenticated fuel _ENDPOINT_DEVICES_CONFIG
         (Some [("area", PStr (lock_area lock)); ("zone", PStr (lock_zone lock));
                ("val", PStr (volume_value v)); ("idx", PStr "01")]) w = (Ok ops, w') ->
       (get "code" ops = Some CODE_SUCCESS ->
          set_volume fuel lock v w =
            (PAttributeError "put_authenticated",
             with_config lock {| volume := volume_value v; autolock := autolock (_config lock);
                                 language := language (_config lock);
                                 arm_hold_time := arm_hold_time (_config lock) |}, w')) /\
       (forall c, get "code" ops = Some c -> c <> CODE_SUCCESS ->
          set_volume fuel lock v w = (PReturn false, lock, w'))) /\
  (forall b,
     fst (fst (set_autolock fuel lock b w)) <> PReturn true /\
     forall ops w',
       post_authenticated fuel _ENDPOINT_DEVICES_CONFIG
         (Some [("area", PStr (lock_area lock)); ("zone", PStr (lock_zone lock));
                ("val", PStr (if b then "FF" else "00")); ("idx", PStr "02")]) w = (Ok ops, w') ->
       (get "code" ops = Some CODE_SUCCESS ->
          set_autolock fuel lock b w =
            (PAttributeError "put_authenticated",
             with_config lock {| volume := volume (_config lock);
                                 autolock := if b then "FF" else "00";
                                 language := language (_config lock);
                                 arm_hold_time := arm_hold_time (_config lock) |}, w')) /\
       (forall c, get "code" ops = Some c -> c <> CODE_SUCCESS ->
          set_autolock fuel lock b w = (PReturn false, lock, w'))).
Proof.
  split; intros x; split.
  1, 3: (unfold set_volume || unfold set_autolock);
    match goal with |- context [post_authenticated ?f ?ep ?p ?ww] =>
      destruct (post_authenticated f ep p ww) as [[ops|e] w'] end;
    [destruct (get "code" ops) as [code|];
       [destruct (String.eqb code CODE_SUCCESS)|]|];
    simpl; discriminate.
  all: intros ops w' Ep; (unfold set_volume || unfold set_autolock); rewrite Ep; split;
    [intros Hc; rewrite Hc; reflexivity
    |intros c Hc Hne; rewrite Hc; apply String.eqb_neq in Hne; rewrite Hne; reflexivity].
Qed.


(** X9, witness: volume high, autolock on. *)
Lemma to_string_layout_witness :
  let c := {| volume := "03"; autolock := "FF"; language := "01"; arm_hold_time := "0A" |} in
  to_string c = "03FF000001" ++ Py.zeros 20 ++ "0A".
Proof.
  intros c. exact (to_string_layout c eq_refl eq_refl eq_refl eq_refl).
Defined.

(** X10, witness: a configuration string with non-zero reserved characters. *)
Lemma config_reserialize_witness :
  let s := "03FF123401" ++ "98765432109876543210" ++ "0A" in
  to_string (YaleLockConfig_init s) = "03FF000001" ++ Py.zeros 20 ++ "0A".
Proof.
  intros s. exact (proj1 (config_reserialize s ltac:(simpl; lia))).
Defined.

(** X12, witness: a single door lock. *)
Lemma get_lock_found_witness :
  let d := {| type := "device_type.door_lock"; name := "front"; area := "1"; address := "RF:01"; no := "1"; status1 := ""; minigw_lock_status := "11"; minigw_configuration_data := Py.zeros 32 |} in
  let l := {| _device := d; lock_name := "front";
              _config := YaleLockConfig_init (Py.zeros 32); _state := LOCKED |} in
  In (_device l) [d] /\ calc_state (_device l) = Ok (_state l).
Proof.
  intros d l.
  destruct (get_lock_found [d] "front" l eq_refl) as (_ & Hin & _ & Hs & _).
  split; assumption.
Defined.

(** X13, witness: a contact, the lock looked for, then an undecodable lock. *)
Lemma get_lock_first_witness :
  let d0 := {| type := "device_type.door_contact"; name := "hall"; area := "1"; address := "RF:01"; no := "1"; status1 := ""; minigw_lock_status := ""; minigw_configuration_data := Py.zeros 32 |} in
  let d := {| type := "device_type.door_lock"; name := "front"; area := "1"; address := "RF:01"; no := "1"; status1 := ""; minigw_lock_status := "11"; minigw_configuration_data := Py.zeros 32 |} in
  let d2 := {| type := "device_type.door_lock"; name := "back"; area := "1"; address := "RF:01"; no := "1"; status1 := ""; minigw_lock_status := "zz"; minigw_configuration_data := Py.zeros 32 |} in
  get_lock [d0; d; d2] "front" =
    Ok (Some {| _device := d; lock_name := "front";
                _config := YaleLockConfig_init (Py.zeros 32); _state := LOCKED |}).
Proof.
  intros d0 d d2.
  refine (proj1 (get_lock_first [d0] d [d2] "front" _ eq_refl) _ eq_refl eq_refl).
  intros d' [<-|[]] Ht. discriminate Ht.
Defined.

(** X14, witness: [set_volume] answered with code ["000"]. *)
Lemma lock_settings_never_true_witness :
  let w := {| auth := {| host := HOST; username := "user"; password := "secret";
                         refresh_token := Some "r0"; access_token := Some "a0" |};
              net := [Resp 200 [("code", "000")]]; sent := [] |} in
  let lock := {| _device := {| type := "device_type.door_lock"; name := "front"; area := "1"; address := "RF:01"; no := "1"; status1 := ""; minigw_lock_status := "11"; minigw_configuration_data := Py.zeros 32 |};
                 lock_name := "front"; _config := YaleLockConfig_init (Py.zeros 32);
                 _state := LOCKED |} in
  fst (fst (set_volume 1 lock HIGH w)) = PAttributeError "put_authenticated" /\
  volume (_config (snd (fst (set_volume 1 lock HIGH w)))) = "03".
Proof.
  intros w lock.
  destruct (proj1 (lock_settings_never_true 1 lock w) HIGH) as [_ H].
  rewrite (proj1 (H [("code", "000")] (snd (post_authenticated 1 _ENDPOINT_DEVICES_CONFIG
             (Some [("area", PStr "1"); ("zone", PStr "1"); ("val", PStr "03");
                    ("idx", PStr "01")]) w)) ltac:(vm_compute; reflexivity)) eq_refl).
  split; reflexivity.
Defined.

End LockExtra.

(* ------------------------------------------------------------------ *)
(** ** Status reading in the client *)

Module ClientExtra.
Import Lock Client ClientData.

Ltac eqb_cases :=
  repeat match goal with
  | |- context [String.eqb ?a ?b] => destruct (String.eqb_spec a b)
  | H : context [String.eqb ?a ?b] |- _ => destruct (String.eqb_spec a b)
  end.

(** X15: [get_status] reports "ok" exactly when acfail, battery, tamper and jam are all "main.normal", and raises KeyError when any of them is missing. *)
Theorem status_summary_spec data :
  (status_summary data = Ok "ok" <->
     get "acfail" data = Some "main.normal" /\ get "battery" data = Some "main.normal" /\
     get "tamper" data = Some "main.normal" /\ get "jam" data = Some "main.normal") /\
  (forall k, In k ["acfail"; "battery"; "tamper"; "jam"] -> get k data = None ->
     status_summary data = Err KeyError).
Proof.
  unfold status_summary. split.
  - destruct (get "acfail" data), (get "battery" data), (get "tamper" data), (get "jam" data);
      simpl; eqb_cases; subst; simpl; split; intros H; try discriminate;
      try (intuition congruence).
  - intros k Hk Hn. simpl in Hk.
    destruct Hk as [<-|[<-|[<-|[<-|[]]]]]; rewrite Hn;
      [reflexivity|destruct (get "acfail" data); reflexivity| |];
      destruct (get "acfail" data), (get "battery" data); try reflexivity.
    destruct (get "tamper" data); reflexivity.
Qed.

Lemma lookup_setitem {A} k k' (v : A) d :
  lookup k (setitem k' v d) = if String.eqb k k' then Some v else lookup k d.
Proof.
  induction d as [|[k0 v0] d IH]; simpl.
  - reflexivity.
  - eqb_cases; subst; simpl; eqb_cases; subst; congruence.
Qed.

Lemma locks_loop_app l ds1 ds2 :
  locks_status_loop l (ds1 ++ ds2) =
    match locks_status_loop l ds1 with
    | Ok l1 => locks_status_loop l1 ds2
    | Err e => Err e
    end.
Proof.
  revert l. induction ds1 as [|d ds1 IH]; intros l; simpl; [reflexivity|].
  destruct (String.eqb (type d) "device_type.door_lock"); [|apply IH].
  destruct (lock_status_of d); [apply IH|reflexivity].
Qed.

Lemma locks_loop_other k l ds l' :
  locks_status_loop l ds = Ok l' ->
  (forall d, In d ds -> type d = "device_type.door_lock" -> name d <> k) ->
  lookup k l' = lookup k l.
Proof.
  revert l. induction ds as [|d ds IH]; intros l H Hn; simpl in H.
  - congruence.
  - destruct (String.eqb_spec (type d) "device_type.door_lock") as [Ht|Ht].
    + destruct (lock_status_of d) as [s|e]; [|discriminate].
      rewrite (IH _ H), lookup_setitem; [|intros; apply Hn; [right|]; assumption].
      destruct (String.eqb_spec k (name d)); [|reflexivity].
      exfalso. apply (Hn d (or_introl eq_refl) Ht). congruence.
    + apply (IH _ H). intros; apply Hn; [right|]; assumption.
Qed.

(** X16: in [get_locks_status] a lock name maps to the state of the last door-lock device with that name. *)
Theorem locks_status_last ds1 d ds2 s locks :
  locks_status (ds1 ++ d :: ds2) = Ok locks ->
  type d = "device_type.door_lock" -> lock_status_of d = Ok s ->
  (forall d', In d' ds2 -> type d' = "device_type.door_lock" -> name d' <> name d) ->
  lookup (name d) locks = Some s.
Proof.
  intros H Ht Hs Hn. unfold locks_status in H. rewrite locks_loop_app in H.
  destruct (locks_status_loop [] ds1) as [l1|e]; [|discriminate].
  simpl in H. rewrite Ht, String.eqb_refl, Hs in H.
  rewrite (locks_loop_other _ _ _ _ H Hn), lookup_setitem, String.eqb_refl.
  reflexivity.
Qed.

(** X17: [get_locks_status] ignores every device that is not a door lock, and raises as soon as any door lock has an undecodable [minigw_lock_status]. *)
Theorem locks_status_door_locks_only ds :
  locks_status (filter (fun d => String.eqb (type d) "device_type.door_lock") ds) =
    locks_status ds /\
  (forall d e, In d ds -> type d = "device_type.door_lock" -> lock_status_of d = Err e ->
     exists e', locks_status ds = Err e').
Proof.
  unfold locks_status. split.
  - generalize (@nil (string * LockStatus)) as l.
    induction ds as [|d ds IH]; intros l; simpl; [reflexivity|].
    destruct (String.eqb (type d) "device_type.door_lock") eqn:Et; simpl; [|apply IH].
    rewrite Et. destruct (lock_status_of d); [apply IH|reflexivity].
  - intros d0 e Hin Ht He. generalize (@nil (string * LockStatus)) as l.
    induction ds as [|d ds IH]; intros l; [destruct Hin|].
    simpl. destruct Hin as [<-|Hin].
    + rewrite Ht, String.eqb_refl, He. eauto.
    + destruct (String.eqb (type d) "device_type.door_lock"); [|apply (IH Hin)].
      destruct (lock_status_of d); [apply (IH Hin)|eauto].
Qed.

Lemma doors_loop_app l ds1 ds2 :
  doors_status_loop l (ds1 ++ ds2) = doors_status_loop (doors_status_loop l ds1) ds2.
Proof.
  revert l. induction ds1 as [|d ds1 IH]; intros l; simpl; [reflexivity|].
  destruct (String.eqb (type d) "device_type.door_contact"); apply IH.
Qed.

Lemma doors_loop_other k l ds :
  (forall d, In d ds -> type d = "device_type.door_contact" -> name d <> k) ->
  lookup k (doors_status_loop l ds) = lookup k l.
Proof.
  revert l. induction ds as [|d ds IH]; intros l Hn; simpl; [reflexivity|].
  destruct (String.eqb_spec (type d) "device_type.door_contact") as [Ht|Ht].
  - rewrite IH, lookup_setitem; [|intros; apply Hn; [right|]; assumption].
    destruct (String.eqb_spec k (name d)); [|reflexivity].
    exfalso. apply (Hn d (or_introl eq_refl) Ht). congruence.
  - apply IH. intros; apply Hn; [right|]; assumption.
Qed.

Lemma doors_loop_sound k s l ds :
  lookup k (doors_status_loop l ds) = Some s ->
  lookup k l = Some s \/
  exists d, In d ds /\ type d = "device_type.door_contact" /\ name d = k /\
            door_status_of d = s.
Proof.
  revert l. induction ds as [|d ds IH]; intros l H; simpl in H; [auto|].
  destruct (String.eqb_spec (type d) "device_type.door_contact") as [Ht|Ht].
  - destruct (IH _ H) as [H1|(d' & ? & ? & ? & ?)].
    + rewrite lookup_setitem in H1. destruct (String.eqb_spec k (name d)) as [->|].
      * right. exists d. injection H1 as <-. repeat split; [left; reflexivity|assumption].
      * auto.
    + right. exists d'. simpl. auto.
  - destruct (IH _ H) as [H1|(d' & ? & ? & ? & ?)]; [auto|].
    right. exists d'. simpl. auto.
Qed.

(** X18: every entry of [get_doors_status] comes from a door-contact device with that name and its decoded status, and a door contact's name maps to the status of the last door contact with that name. *)
Theorem doors_status_spec ds :
  (forall k s, lookup k (doors_status ds) = Some s ->
     exists d, In d ds /\ type d = "device_type.door_contact" /\ name d = k /\
               door_status_of d = s) /\
  (forall ds1 d ds2, ds = (ds1 ++ d :: ds2)%list -> type d = "device_type.door_contact" ->
     (forall d', In d' ds2 -> type d' = "device_type.door_contact" -> name d' <> name d) ->
     lookup (name d) (doors_status ds) = Some (door_status_of d)).
Proof.
  unfold doors_status. split.
  - intros k s H. destruct (doors_loop_sound k s [] ds H) as [H1|H1]; [discriminate|exact H1].
  - intros ds1 d ds2 -> Ht Hn. rewrite doors_loop_app. simpl.
    rewrite Ht, String.eqb_refl, doors_loop_other, lookup_setitem, String.eqb_refl by exact Hn.
    reflexivity.
Qed.

(** X15, witness: a normal panel, then one without [jam]. *)
Lemma status_summary_spec_witness :
  status_summary [("acfail", "main.normal"); ("battery", "main.normal");
                  ("tamper", "main.normal"); ("jam", "main.normal")] = Ok "ok" /\
  status_summary [("acfail", "main.normal"); ("battery", "main.normal");
                  ("tamper", "main.normal")] = Err KeyError.
Proof.
  split.
  - apply (proj2 (proj1 (status_summary_spec _))). repeat split.
  - apply (proj2 (status_summary_spec _) "jam"); [simpl; auto|reflexivity].
Defined.

(** X16, witness: two locks named ["front"], unlocked then locked. *)
Lemma locks_status_last_witness :
  let d1 := {| type := "device_type.door_lock"; name := "front"; area := "1"; address := "RF:01"; no := "1"; status1 := ""; minigw_lock_status := "10"; minigw_configuration_data := Py.zeros 32 |} in
  let d := {| type := "device_type.door_lock"; name := "front"; area := "1"; address := "RF:01"; no := "1"; status1 := ""; minigw_lock_status := "11"; minigw_configuration_data := Py.zeros 32 |} in
  let d3 := {| type := "device_type.door_contact"; name := "front"; area := "1"; address := "RF:01"; no := "1"; status1 := ""; minigw_lock_status := ""; minigw_configuration_data := Py.zeros 32 |} in
  locks_status [d1; d; d3] = Ok [("front", YALE_LOCK_STATE_LOCKED)] /\
  lookup "front" [("front", YALE_LOCK_STATE_LOCKED)] = Some YALE_LOCK_STATE_LOCKED.
Proof.
  intros d1 d d3. split; [reflexivity|].
  refine (locks_status_last [d1] d [d3] YALE_LOCK_STATE_LOCKED _ eq_refl eq_refl eq_refl _).
  intros d' [<-|[]] Ht. discriminate Ht.
Defined.

(** X17, witness: an undecodable lock after a valid one. *)
Lemma locks_status_door_locks_only_witness :
  let d1 := {| type := "device_type.door_lock"; name := "front"; area := "1"; address := "RF:01"; no := "1"; status1 := ""; minigw_lock_status := "11"; minigw_configuration_data := Py.zeros 32 |} in
  let d2 := {| type := "device_type.door_lock"; name := "back"; area := "1"; address := "RF:01"; no := "1"; status1 := ""; minigw_lock_status := "zz"; minigw_configuration_data := Py.zeros 32 |} in
  exists e, locks_status [d1; d2] = Err e.
Proof.
  intros d1 d2.
  exact (proj2 (locks_status_door_locks_only [d1; d2]) d2 ValueError
           (or_intror (or_introl eq_refl)) eq_refl eq_refl).
Defined.

(** X18, witness: two contacts named ["hall"], closed then open. *)
Lemma doors_status_spec_witness :
  let d1 := {| type := "device_type.door_contact"; name := "hall"; area := "1"; address := "RF:01"; no := "1"; status1 := "device_status.dc_close"; minigw_lock_status := ""; minigw_configuration_data := Py.zeros 32 |} in
  let d := {| type := "device_type.door_contact"; name := "hall"; area := "1"; address := "RF:01"; no := "1"; status1 := "device_status.dc_open"; minigw_lock_status := ""; minigw_configuration_data := Py.zeros 32 |} in
  lookup "hall" (doors_status [d1; d]) = Some YALE_DOOR_CONTACT_STATE_OPEN.
Proof.
  intros d1 d.
  exact (proj2 (doors_status_spec [d1; d]) [d1] d [] eq_refl eq_refl
           (fun d' Hin _ => match Hin with end)).
Defined.

End ClientExtra.
